(** * pre_commit/repository.py: the [Repository] lifecycle

    A shallow embedding of [pre_commit.repository.Repository]: the lazily
    memoised [manifest], [hooks] and [languages] properties, the
    [create]/[install] lifecycle guarded by the two private flags, and
    [run_hook].  Python dictionaries are finite maps, the [OrderedDict] is
    an association list in insertion order, exceptions are an explicit
    result type, and the attributes of [self] together with the file system
    are threaded through a state-and-exception monad. *)

From stdpp Require Import gmap strings list fin_maps.
From Stdlib Require Import ZArith.

Local Open Scope string_scope.
Local Open Scope list_scope.

(** ** Python values, dictionaries and exceptions *)

(** Values stored in a hook record: strings ([id], [language], [files],
    ...) and lists of strings ([args]).  Strings are hashable, lists are
    not. *)
Inductive value :=
  | VStr (s : string)
  | VList (l : list string).

#[global] Instance value_eq_dec : EqDecision value.
Proof. solve_decision. Defined.

(** A hook record (a Python [dict] with string keys). *)
Abbreviation hook_dict := (gmap string value).

(** A file-system path, as its list of components. *)
Abbreviation path := (list string).

Inductive exn :=
  | KeyError (k : string)       (* d[k] on a missing key *)
  | TypeError                   (* unhashable key *)
  | OSError (p : path)          (* chdir into a missing directory *)
  | RuntimeError                (* maximum recursion depth exceeded *)
  | ExternalError (msg : string). (* raised by a collaborator *)

Inductive Res (A : Type) :=
  | Ok (a : A)
  | Raise (e : exn).
Arguments Ok {A} a.
Arguments Raise {A} e.

Definition res_bind {A B} (r : Res A) (k : A → Res B) : Res B :=
  match r with
  | Ok a => k a
  | Raise e => Raise e
  end.

(** [d[k]] on a hook record. *)
Definition getitem (d : hook_dict) (k : string) : Res value :=
  match d !! k with
  | Some v => Ok v
  | None => Raise (KeyError k)
  end.

(** Hashing a key, as every dict, set and OrderedDict access does. *)
Definition hash_key (v : value) : Res string :=
  match v with
  | VStr s => Ok s
  | VList _ => Raise TypeError
  end.

(** [d[v]] on a dictionary keyed by strings, for an arbitrary value [v]. *)
Definition dict_getitem {A} (d : gmap string A) (v : value) : Res A :=
  res_bind (hash_key v) (λ k,
    match d !! k with
    | Some a => Ok a
    | None => Raise (KeyError k)
    end).

(** [dict(hook, **entry)]: a copy of [hook] updated with every item of
    [entry]; on a common key the value of [entry] is kept.  ([∪] on maps
    is left-biased.) *)
Definition dict_update (hook entry : hook_dict) : hook_dict := entry ∪ hook.

(** [dict((hook['id'], hook) for hook in hs)]. *)
Fixpoint dict_of_hooks (hs : list hook_dict) (acc : gmap string hook_dict)
  : Res (gmap string hook_dict) :=
  match hs with
  | [] => Ok acc
  | hook :: rest =>
      res_bind (getitem hook "id") (λ v,
      res_bind (hash_key v) (λ k,
      dict_of_hooks rest (<[k := hook]> acc)))
  end.

(** ** OrderedDict *)

(** An [OrderedDict] keyed by strings: the items in insertion order, one
    per key. *)
Abbreviation odict := (list (string * hook_dict)).

(** [od[k] = v]: an existing key keeps its position and takes the new
    value, a new key goes to the end. *)
Fixpoint od_setitem (od : odict) (k : string) (v : hook_dict) : odict :=
  match od with
  | [] => [(k, v)]
  | (k', v') :: rest =>
      if decide (k' = k) then (k', v) :: rest
      else (k', v') :: od_setitem rest k v
  end.

Fixpoint od_lookup (od : odict) (k : string) : option hook_dict :=
  match od with
  | [] => None
  | (k', v') :: rest => if decide (k' = k) then Some v' else od_lookup rest k
  end.

(** [od[k]]. *)
Definition od_getitem (od : odict) (k : string) : Res hook_dict :=
  match od_lookup od k with
  | Some v => Ok v
  | None => Raise (KeyError k)
  end.

(** [od.values()]. *)
Definition od_values (od : odict) : list hook_dict := od.*2.

(** [set(hook['language'] for hook in hs)]. *)
Fixpoint set_of_languages (hs : list hook_dict) (acc : gset string)
  : Res (gset string) :=
  match hs with
  | [] => Ok acc
  | hook :: rest =>
      res_bind (getitem hook "language") (λ v,
      res_bind (hash_key v) (λ k,
      set_of_languages rest ({[k]} ∪ acc)))
  end.

(** ** The world outside the interpreter *)

Inductive event :=
  | EvLog (msg : string) (arg : string)
  | EvClone (url sha : string)
  | EvCheckout (sha : string)
  | EvLoadManifest (file : string)
  | EvInstall (language : string) (runner : path)
  | EvRun (language : value) (runner : path) (hook : hook_dict)
          (file_args : list string).

(** The file system is the set of paths that exist; [trace] records the
    calls made to collaborators, most recent first. *)
Record World := {
  fs : gset path;
  cwd : path;
  trace : list event;
}.

(** The result of running a hook: exit status and captured output. *)
Abbreviation run_result := (Z * string)%type.

(** A collaborator sees the world, answers or raises, and leaves a new
    file system behind. *)
Abbreviation extern A := (World → Res A * gset path).

(** A language backend: a module of [pre_commit.languages]. *)
Record Language := {
  ENVIRONMENT_DIR : option string;
  install_environment : path → extern unit;
  lang_run_hook : path → hook_dict → list string → extern run_result;
}.

(** Everything [repository.py] imports or calls and does not define:
    the [git] executable, [load_manifest], the [languages] registry, the
    constants, the order in which a [set] is iterated, and the number of
    nested calls the interpreter allows. *)
Record Env := {
  git_clone : string → string → extern unit;
  git_checkout : string → extern unit;
  load_manifest : string → extern (list hook_dict);
  languages : gmap string Language;
  HOOKS_WORKSPACE : path;
  MANIFEST_FILE : string;
  set_iter : gset string → list string;
  set_iter_perm : ∀ s, set_iter s ≡ₚ elements s;
  recursion_limit : nat;
}.

(** [repo_config]: the validated configuration of one repository. *)
Record Config := {
  cfg_repo : string;
  cfg_sha : string;
  cfg_hooks : list hook_dict;
}.

(** ** The interpreter state *)

(** The attributes of [self] (the two private flags and the slots filled
    by [cached_property]) and the world. *)
Record State := {
  __created : bool;
  __installed : bool;
  manifest_slot : option (gmap string hook_dict);
  hooks_slot : option odict;
  languages_slot : option (gset string);
  world : World;
}.

Definition set_created (b : bool) (st : State) : State :=
  {| __created := b; __installed := __installed st;
     manifest_slot := manifest_slot st; hooks_slot := hooks_slot st;
     languages_slot := languages_slot st; world := world st |}.

Definition set_installed (b : bool) (st : State) : State :=
  {| __created := __created st; __installed := b;
     manifest_slot := manifest_slot st; hooks_slot := hooks_slot st;
     languages_slot := languages_slot st; world := world st |}.

Definition set_manifest_slot (m : gmap string hook_dict) (st : State) : State :=
  {| __created := __created st; __installed := __installed st;
     manifest_slot := Some m; hooks_slot := hooks_slot st;
     languages_slot := languages_slot st; world := world st |}.

Definition set_hooks_slot (od : odict) (st : State) : State :=
  {| __created := __created st; __installed := __installed st;
     manifest_slot := manifest_slot st; hooks_slot := Some od;
     languages_slot := languages_slot st; world := world st |}.

Definition set_languages_slot (s : gset string) (st : State) : State :=
  {| __created := __created st; __installed := __installed st;
     manifest_slot := manifest_slot st; hooks_slot := hooks_slot st;
     languages_slot := Some s; world := world st |}.

Definition set_world (w : World) (st : State) : State :=
  {| __created := __created st; __installed := __installed st;
     manifest_slot := manifest_slot st; hooks_slot := hooks_slot st;
     languages_slot := languages_slot st; world := w |}.

Definition set_cwd (p : path) (w : World) : World :=
  {| fs := fs w; cwd := p; trace := trace w |}.

Definition set_fs (f : gset path) (w : World) : World :=
  {| fs := f; cwd := cwd w; trace := trace w |}.

Definition log_event (e : event) (w : World) : World :=
  {| fs := fs w; cwd := cwd w; trace := e :: trace w |}.

(** A new [Repository(repo_config)] in a given world. *)
Definition init (w : World) : State :=
  {| __created := false; __installed := false;
     manifest_slot := None; hooks_slot := None; languages_slot := None;
     world := w |}.

(** ** The monad of statements *)

Definition M (A : Type) : Type := State → Res A * State.

Definition ret {A} (a : A) : M A := λ st, (Ok a, st).

Definition raise {A} (e : exn) : M A := λ st, (Raise e, st).

Definition bind {A B} (m : M A) (k : A → M B) : M B :=
  λ st, match m st with
        | (Ok a, st') => k a st'
        | (Raise e, st') => (Raise e, st')
        end.

Notation "'let*' x ':=' m 'in' k" := (bind m (λ x, k))
  (at level 10, x pattern, m at level 100, k at level 200).
Notation "m1 ';;;' m2" := (bind m1 (λ _, m2))
  (at level 100, m2 at level 200, right associativity).

(** A pure computation that may raise. *)
Definition lift {A} (r : Res A) : M A := λ st, (r, st).

(** A call to a collaborator: recorded in the trace, then run. *)
Definition call {A} (e : event) (f : extern A) : M A :=
  λ st, let w := log_event e (world st) in
        let '(r, fs') := f w in
        (r, set_world (set_fs fs' w) st).

(** [try: body finally: h]. *)
Definition finally {A} (body : M A) (h : State → State) : M A :=
  λ st, let '(r, st') := body st in (r, h st').

(** [try: body except BaseException: h; raise]. *)
Definition on_failure {A} (body : M A) (h : State → State) : M A :=
  λ st, match body st with
        | (Ok a, st') => (Ok a, st')
        | (Raise e, st') => (Raise e, h st')
        end.

(** The number of recorded events that satisfy [p]. *)
Definition count_ev (p : event → bool) (t : list event) : nat :=
  length (List.filter p t).

Definition is_clone (e : event) : bool :=
  match e with EvClone _ _ => true | _ => false end.
Definition is_checkout (e : event) : bool :=
  match e with EvCheckout _ => true | _ => false end.
Definition is_install (e : event) : bool :=
  match e with EvInstall _ _ => true | _ => false end.
Definition is_install_of (name : string) (e : event) : bool :=
  match e with EvInstall l _ => bool_decide (l = name) | _ => false end.
Definition is_run (e : event) : bool :=
  match e with EvRun _ _ _ _ => true | _ => false end.

(** ** Helpers imported by [repository.py] *)

Section helpers.
Context (env : Env).

(** [local.path(name)]: [name] resolved against the working directory. *)
Definition local_path (name : string) : M path :=
  λ st, (Ok (cwd (world st) ++ [name]), st).

(** [p.exists()]. *)
Definition path_exists (p : path) : M bool :=
  λ st, (Ok (bool_decide (p ∈ fs (world st))), st).

(** [with local.cwd(name): body] (plumbum): change into the directory
    [name], which must exist, and restore the previous working directory
    on every exit path. *)
Definition local_cwd {A} (name : string) (body : M A) : M A :=
  λ st, let old := cwd (world st) in
        let new := old ++ [name] in
        if bool_decide (new ∈ fs (world st)) then
          finally body (λ st', set_world (set_cwd old (world st')) st')
                  (set_world (set_cwd new (world st)) st)
        else (Raise (OSError new), st).

(** Modelled from the spec: [in_hooks_workspace]
    ([pre_commit.hooks_workspace]) is not in this file.  It "provides
    scoped acquisition of a current directory context": the shared
    workspace root is the working directory of the enclosed block, and
    the previous one is restored on every exit path. *)
Definition in_hooks_workspace {A} (body : M A) : M A :=
  λ st, let old := cwd (world st) in
        finally body (λ st', set_world (set_cwd old (world st')) st')
                (set_world (set_cwd (HOOKS_WORKSPACE env) (world st)) st).

(** [shutil.rmtree(p)]: [p] and everything below it are gone. *)
Definition rmtree (p : path) (f : gset path) : gset path :=
  filter (λ q, ¬ p `prefix_of` q) f.

(** Modelled from the spec: [clean_path_on_failure]
    ([pre_commit.util]) is not in this file.  "If any step fails, the
    partially-created target directory is removed before the error
    propagates." *)
Definition clean_path_on_failure {A} (p : path) (body : M A) : M A :=
  on_failure body
    (λ st, set_world (set_fs (rmtree p (fs (world st))) (world st)) st).

(** [logger.info(fmt.format(arg))]. *)
Definition logger_info (fmt arg : string) : M unit :=
  λ st, (Ok tt, set_world (log_event (EvLog fmt arg) (world st)) st).

(** Modelled from the spec: [PrefixedCommandRunner]
    ([pre_commit.prefixed_command_runner]) is not in this file.  A
    runner is the directory it is bound to; [from_command_runner]
    "produces a new command runner whose working root is prefixed by"
    the given subdirectory, and [exists(relativePath)] tells whether the
    path exists below that root. *)
Definition from_command_runner (runner : path) (path_end : string) : path :=
  runner ++ [path_end].

Definition runner_exists (runner : path) (rel : string) : M bool :=
  path_exists (runner ++ [rel]).

(** Modelled from the spec: [cached_property] ([pre_commit.util]) is not
    in this file.  The value is "computed lazily on first access and
    cached for the Repository's lifetime"; a computation that raises
    stores nothing. *)
Definition cached_property {A} (slot : State → option A)
    (store : A → State → State) (compute : M A) : M A :=
  λ st, match slot st with
        | Some v => (Ok v, st)
        | None =>
            match compute st with
            | (Ok v, st') => (Ok v, store v st')
            | (Raise e, st') => (Raise e, st')
            end
        end.
End helpers.

(** ** class Repository *)

Module Repository.
Section methods.
Context (env : Env) (repo_config : Config).

(** [repo_url] and [sha] read [repo_config]; caching them is not
    observable. *)
Definition repo_url : string := cfg_repo repo_config.
Definition sha : string := cfg_sha repo_config.

Definition get_cmd_runner (hooks_cmd_runner : path) : path :=
  from_command_runner hooks_cmd_runner sha.

(** [require_created], with the [create] it calls as a parameter:
    [create] and [in_checkout] call each other through it. *)
Definition require_created_with (create : M unit) : M unit :=
  λ st, if __created st then (Ok tt, st)
        else (create ;;; λ st', (Ok tt, set_created true st')) st.

(** [in_checkout], a context manager around [body]. *)
Definition in_checkout_with {A} (create : M unit) (body : M A) : M A :=
  require_created_with create ;;;
  in_hooks_workspace env (local_cwd sha body).

(** [create].  [depth] bounds the nesting of [create] inside itself
    (through [in_checkout] and [require_created]); at the bound the
    interpreter raises [RuntimeError]. *)
Fixpoint create_at (depth : nat) : M unit :=
  match depth with
  | O => raise RuntimeError
  | S d =>
      in_hooks_workspace env (
        let* p := local_path sha in
        let* present := path_exists p in
        if present then
          (* Project already exists, no reason to re-create it *)
          ret tt
        else
          logger_info "Installing environment for {0}." repo_url ;;;
          logger_info "Once installed this environment will be reused." "" ;;;
          logger_info "This may take a few minutes..." "" ;;;
          (* five.u only converts the path to text *)
          let* target := local_path sha in
          clean_path_on_failure target (
            call (EvClone repo_url sha) (git_clone env repo_url sha) ;;;
            in_checkout_with (create_at d)
              (call (EvCheckout sha) (git_checkout env sha))))
  end.

Definition create : M unit := create_at (recursion_limit env).

Definition require_created : M unit := require_created_with create.

Definition in_checkout {A} (body : M A) : M A :=
  in_checkout_with create body.

Definition manifest : M (gmap string hook_dict) :=
  cached_property manifest_slot set_manifest_slot
    (in_checkout (
       let* entries := call (EvLoadManifest (MANIFEST_FILE env))
                            (load_manifest env (MANIFEST_FILE env)) in
       lift (dict_of_hooks entries ∅))).

(** The generator of [hooks] feeding the [OrderedDict]: for each
    declared hook, [hook['id']], then [self.manifest], then
    [hook['id']] again and the subscript, then the merge. *)
Fixpoint hooks_items (decl : list hook_dict) (od : odict) : M odict :=
  match decl with
  | [] => ret od
  | hook :: rest =>
      let* key := lift (getitem hook "id") in
      let* m := manifest in
      let* id := lift (getitem hook "id") in
      let* entry := lift (dict_getitem m id) in
      let* k := lift (hash_key key) in
      hooks_items rest (od_setitem od k (dict_update hook entry))
  end.

Definition hooks : M odict :=
  cached_property hooks_slot set_hooks_slot
    (hooks_items (cfg_hooks repo_config) []).

(** The [languages] property (the registry of backends is
    [languages env]). *)
Definition languages_of : M (gset string) :=
  cached_property languages_slot set_languages_slot
    (let* od := hooks in
     lift (set_of_languages (od_values od) ∅)).

(** One turn of the loop of [install]. *)
Definition install_one (repo_cmd_runner : path) (language_name : string)
  : M unit :=
  let* language := lift (dict_getitem (languages env) (VStr language_name)) in
  match ENVIRONMENT_DIR language with
  | None => ret tt
  | Some dir =>
      let* present := runner_exists repo_cmd_runner dir in
      if present then
        (* The language is already installed *)
        ret tt
      else
        call (EvInstall language_name repo_cmd_runner)
             (install_environment language repo_cmd_runner)
  end.

Fixpoint install_loop (repo_cmd_runner : path) (names : list string)
  : M unit :=
  match names with
  | [] => ret tt
  | language_name :: rest =>
      install_one repo_cmd_runner language_name ;;;
      install_loop repo_cmd_runner rest
  end.

Definition install (cmd_runner : path) : M unit :=
  require_created ;;;
  let repo_cmd_runner := get_cmd_runner cmd_runner in
  let* names := languages_of in
  install_loop repo_cmd_runner (set_iter env names).

Definition require_installed (cmd_runner : path) : M unit :=
  λ st, if __installed st then (Ok tt, st)
        else (install cmd_runner ;;;
              λ st', (Ok tt, set_installed true st')) st.

Definition run_hook (cmd_runner : path) (hook_id : string)
    (file_args : list string) : M run_result :=
  require_installed cmd_runner ;;;
  let repo_cmd_runner := get_cmd_runner cmd_runner in
  let* od := hooks in
  let* hook := lift (od_getitem od hook_id) in
  let* name := lift (getitem hook "language") in
  let* language := lift (dict_getitem (languages env) name) in
  call (EvRun name repo_cmd_runner hook file_args)
       (lang_run_hook language repo_cmd_runner hook file_args).

(** [n] calls one after the other; the first exception ends the
    sequence. *)
Fixpoint repeat_call (n : nat) (m : M unit) : M unit :=
  match n with
  | O => ret tt
  | S n' => m ;;; repeat_call n' m
  end.
End methods.
End Repository.

(** ** Vocabulary of the statements *)

(** The checkout of the repository: [sha] below the hooks workspace. *)
Definition checkout_dir (env : Env) (repo_config : Config) : path :=
  HOOKS_WORKSPACE env ++ [Repository.sha repo_config].

Definition clones (st : State) : nat := count_ev is_clone (trace (world st)).
Definition checkouts (st : State) : nat :=
  count_ev is_checkout (trace (world st)).
Definition installs_of (name : string) (st : State) : nat :=
  count_ev (is_install_of name) (trace (world st)).
Definition runs (st : State) : nat := count_ev is_run (trace (world st)).

(** What [hooks_items] computes once [self.manifest] is the mapping [m]. *)
Fixpoint merge_items (m : gmap string hook_dict) (decl : list hook_dict)
    (od : odict) : Res odict :=
  match decl with
  | [] => Ok od
  | hook :: rest =>
      res_bind (getitem hook "id") (λ key,
      res_bind (dict_getitem m key) (λ entry,
      res_bind (hash_key key) (λ k,
      merge_items m rest (od_setitem od k (dict_update hook entry)))))
  end.

(** The declared hook has the string [i] as its id. *)
Definition has_id (i : string) (hook : hook_dict) : Prop :=
  hook !! "id" = Some (VStr i).

#[global] Instance has_id_dec i hook : Decision (has_id i hook).
Proof. unfold has_id. apply _. Defined.

(** The declared hook has a string id that the manifest [m] knows. *)
Definition matched (m : gmap string hook_dict) (hook : hook_dict) : Prop :=
  ∃ i, has_id i hook ∧ is_Some (m !! i).

(** The string id of a hook record, if it has one. *)
Definition id_of (hook : hook_dict) : option string :=
  match hook !! "id" with
  | Some (VStr i) => Some i
  | _ => None
  end.

(** The same three notions, decided over a list of declared hooks. *)
Definition all_have_id (decl : list hook_dict) : bool :=
  forallb (λ h, bool_decide (is_Some (id_of h))) decl.

Definition all_matched (m : gmap string hook_dict) (decl : list hook_dict)
  : bool :=
  forallb (λ h, match id_of h with
                | Some i => bool_decide (is_Some (m !! i))
                | None => false
                end) decl.

Definition none_has_id (i : string) (decl : list hook_dict) : bool :=
  forallb (λ h, negb (bool_decide (has_id i h))) decl.

(** The test of the loop of [install], negated: the backend of [name] is
    registered, declares an environment directory, and that directory is
    missing below the runner. *)
Definition needs_install (env : Env) (repo_cmd_runner : path)
    (name : string) (st : State) : bool :=
  match languages env !! name with
  | Some language =>
      match ENVIRONMENT_DIR language with
      | Some dir =>
          negb (bool_decide (repo_cmd_runner ++ [dir] ∈ fs (world st)))
      | None => false
      end
  | None => false
  end.

(** The world in which [create], started in the world [w], calls
    [git clone]: in the hooks workspace, after the three log lines. *)
Definition world_at_clone (env : Env) (repo_config : Config) (w : World)
  : World :=
  {| fs := fs w;
     cwd := HOOKS_WORKSPACE env;
     trace :=
       [EvClone (Repository.repo_url repo_config) (Repository.sha repo_config);
        EvLog "This may take a few minutes..." "";
        EvLog "Once installed this environment will be reused." "";
        EvLog "Installing environment for {0}."
              (Repository.repo_url repo_config)]
       ++ trace w |}.

(** The world in which it then calls [git checkout], [git clone] having
    left the file system [f]: inside the checkout directory. *)
Definition world_at_checkout (env : Env) (repo_config : Config) (w : World)
    (f : gset path) : World :=
  {| fs := f;
     cwd := checkout_dir env repo_config;
     trace := EvCheckout (Repository.sha repo_config)
              :: trace (world_at_clone env repo_config w) |}.

(** [git clone] keeps its contract: when it succeeds, the target
    directory exists. *)
Definition clone_creates_target (env : Env) : Prop :=
  ∀ url sha w f, git_clone env url sha w = (Ok tt, f) → cwd w ++ [sha] ∈ f.

(** [git checkout] keeps its contract: when it succeeds, the directory it
    ran in is still there. *)
Definition checkout_keeps_cwd (env : Env) : Prop :=
  ∀ sha w f, git_checkout env sha w = (Ok tt, f) → cwd w ∈ fs w → cwd w ∈ f.

(** ** Relations between the state before and after an operation *)

(** [inv R m]: the state in which [m] ends is [R]-related to the one in
    which it starts, whatever the outcome. *)
Definition inv {A} (R : relation State) (m : M A) : Prop :=
  ∀ st, R st (m st).2.

(** [R] tolerates the elementary state changes of [create] and of the
    cached properties, logging being restricted to the events in [P]. *)
Record frame (P : event → bool) (R : relation State) : Prop := {
  frame_preorder : PreOrder R;
  frame_cwd : ∀ st c, R st (set_world (set_cwd c (world st)) st);
  frame_fs : ∀ st f, R st (set_world (set_fs f (world st)) st);
  frame_log : ∀ st e, P e = true → R st (set_world (log_event e (world st)) st);
  frame_created : ∀ st, R st (set_created true st);
  frame_manifest : ∀ st m, R st (set_manifest_slot m st);
}.

Definition frame_hooks (R : relation State) : Prop :=
  ∀ st od, R st (set_hooks_slot od st).
Definition frame_languages (R : relation State) : Prop :=
  ∀ st s, R st (set_languages_slot s st).

(** The events logged while fetching and loading the manifest. *)
Definition setup_event (e : event) : bool :=
  match e with
  | EvInstall _ _ | EvRun _ _ _ _ => false
  | _ => true
  end.

(** An observation of the interpreter state keeps its value. *)
Definition same {X} (f : State → X) : relation State :=
  λ st st', f st' = f st.

(** The number of recorded events satisfying [p] stays the same. *)
Definition same_count (p : event → bool) : relation State :=
  same (λ st, count_ev p (trace (world st))).

(** The trace only grows. *)
Definition grows : relation State :=
  λ st st', trace (world st) `suffix_of` trace (world st').

(** Once set, the [__created] flag stays set. *)
Definition created_stays : relation State :=
  λ st st', __created st = true → __created st' = true.

(** ** A concrete repository *)

Module Scenario.
Definition python : Language :=
  {| ENVIRONMENT_DIR := Some "py_env";
     install_environment := λ r w, (Ok tt, {[r ++ ["py_env"]]} ∪ fs w);
     lang_run_hook := λ r hook files w, (Ok (1%Z, "would reformat"), fs w) |}.

Definition script : Language :=
  {| ENVIRONMENT_DIR := None;
     install_environment := λ r w, (Ok tt, fs w);
     lang_run_hook := λ r hook files w, (Ok (0%Z, ""), fs w) |}.

(** A backend whose installation always fails. *)
Definition ruby : Language :=
  {| ENVIRONMENT_DIR := Some "rb_env";
     install_environment := λ r w, (Raise (ExternalError "gem"), fs w);
     lang_run_hook := λ r hook files w, (Ok (0%Z, ""), fs w) |}.

Definition entry_x : hook_dict :=
  {[ "id" := VStr "x"; "language" := VStr "python"; "args" := VList [] ]}.
Definition entry_lint : hook_dict :=
  {[ "id" := VStr "lint"; "language" := VStr "script" ]}.
Definition entry_gem : hook_dict :=
  {[ "id" := VStr "gem"; "language" := VStr "ruby" ]}.

Definition env : Env :=
  {| git_clone := λ url sha w, (Ok tt, {[cwd w ++ [sha]]} ∪ fs w);
     git_checkout := λ sha w, (Ok tt, {[cwd w ++ ["hooks.yaml"]]} ∪ fs w);
     load_manifest := λ file w, (Ok [entry_x; entry_lint; entry_gem], fs w);
     languages :=
       {[ "python" := python; "script" := script; "ruby" := ruby ]};
     HOOKS_WORKSPACE := ["ws"];
     MANIFEST_FILE := "hooks.yaml";
     set_iter := elements;
     set_iter_perm := λ s, reflexivity (elements s);
     recursion_limit := 50 |}.

(** The same, with a [git checkout] that fails after writing a file. *)
Definition env_bad_checkout : Env :=
  {| git_clone := git_clone env;
     git_checkout := λ sha w,
       (Raise (ExternalError "bad ref"), {[cwd w ++ [".git"]]} ∪ fs w);
     load_manifest := load_manifest env;
     languages := languages env;
     HOOKS_WORKSPACE := HOOKS_WORKSPACE env;
     MANIFEST_FILE := MANIFEST_FILE env;
     set_iter := set_iter env;
     set_iter_perm := set_iter_perm env;
     recursion_limit := recursion_limit env |}.

Definition override_x : hook_dict :=
  {[ "id" := VStr "x"; "args" := VList ["--fix"] ]}.
Definition override_x' : hook_dict :=
  {[ "id" := VStr "x"; "files" := VStr "\.py$" ]}.

Definition config (decl : list hook_dict) : Config :=
  {| cfg_repo := "git@example:hooks"; cfg_sha := "abc123";
     cfg_hooks := decl |}.

Definition empty_world : World := {| fs := ∅; cwd := ["project"]; trace := [] |}.

(** A world in which an earlier process has fetched the repository. *)
Definition fetched_world : World :=
  {| fs := {[ ["ws"; "abc123"] ]}; cwd := ["project"]; trace := [] |}.

Definition runner : path := ["ws"].

(** What [load_manifest] of [env] yields, keyed by id. *)
Definition manifest_map : gmap string hook_dict :=
  {[ "x" := entry_x; "lint" := entry_lint; "gem" := entry_gem ]}.

Definition override_lint : hook_dict := {[ "id" := VStr "lint" ]}.
Definition override_gem : hook_dict := {[ "id" := VStr "gem" ]}.

(** The state in which the first access to [manifest] ends. *)
Definition after_manifest (decl : list hook_dict) : State :=
  (Repository.manifest env (config decl) (init empty_world)).2.
End Scenario.

(** ** Vocabulary of the further properties *)

(** The item that [hooks] stores for a declared hook, given the manifest
    [m]: its id and the merge with the manifest entry of that id. *)
Definition merged_item (m : gmap string hook_dict) (hook : hook_dict)
  : option (string * hook_dict) :=
  match id_of hook with
  | Some i =>
      match m !! i with
      | Some entry => Some (i, dict_update hook entry)
      | None => None
      end
  | None => None
  end.

(** Neither lifecycle flag goes back from set to unset. *)
Definition flags_stay : relation State :=
  λ st st', (__created st = true → __created st' = true) ∧
            (__installed st = true → __installed st' = true).

(** The working directory of the process. *)
Definition cwd_of (st : State) : path := cwd (world st).

(** Everything recorded except the runs of hooks. *)
Definition is_not_run (e : event) : bool := negb (is_run e).

(** What is left of [run_hook] once [self.hooks] is the mapping [od]:
    the two subscripts and the call of the backend. *)
Definition run_resolved (env : Env) (repo_cmd_runner : path) (od : odict)
    (hook_id : string) (file_args : list string) : M run_result :=
  let* hook := lift (od_getitem od hook_id) in
  let* name := lift (getitem hook "language") in
  let* language := lift (dict_getitem (languages env) name) in
  call (EvRun name repo_cmd_runner hook file_args)
       (lang_run_hook language repo_cmd_runner hook file_args).

(** The world in which [manifest] calls [load_manifest], the repository
    having been created in the world [w]: inside the checkout directory. *)
Definition world_at_load (env : Env) (repo_config : Config) (w : World)
  : World :=
  {| fs := fs w;
     cwd := checkout_dir env repo_config;
     trace := EvLoadManifest (MANIFEST_FILE env) :: trace w |}.

(** More declared hooks for the concrete repository. *)
Module Cases.
Definition without_id : hook_dict := {[ "files" := VStr "\.py$" ]}.

(** A registry that lacks the backend of [ruby]. *)
Definition env_no_ruby : Env :=
  {| git_clone := git_clone Scenario.env;
     git_checkout := git_checkout Scenario.env;
     load_manifest := load_manifest Scenario.env;
     languages :=
       {[ "python" := Scenario.python; "script" := Scenario.script ]};
     HOOKS_WORKSPACE := HOOKS_WORKSPACE Scenario.env;
     MANIFEST_FILE := MANIFEST_FILE Scenario.env;
     set_iter := set_iter Scenario.env;
     set_iter_perm := set_iter_perm Scenario.env;
     recursion_limit := recursion_limit Scenario.env |}.

(** A manifest file with two entries for the id [x]. *)
Definition entry_x_again : hook_dict :=
  {[ "id" := VStr "x"; "language" := VStr "script" ]}.

Definition env_duplicates : Env :=
  {| git_clone := git_clone Scenario.env;
     git_checkout := git_checkout Scenario.env;
     load_manifest := λ file w, (Ok [Scenario.entry_x; entry_x_again], fs w);
     languages := languages Scenario.env;
     HOOKS_WORKSPACE := HOOKS_WORKSPACE Scenario.env;
     MANIFEST_FILE := MANIFEST_FILE Scenario.env;
     set_iter := set_iter Scenario.env;
     set_iter_perm := set_iter_perm Scenario.env;
     recursion_limit := recursion_limit Scenario.env |}.
End Cases.

(** * Properties *)

(** ** Running the monad *)

Lemma bind_ok {A B} (m : M A) (k : A → M B) st a st' :
  m st = (Ok a, st') → bind m k st = k a st'.
Proof. unfold bind. by intros ->. Qed.

Lemma bind_raise {A B} (m : M A) (k : A → M B) st e st' :
  m st = (Raise e, st') → bind m k st = (Raise e, st').
Proof. unfold bind. by intros ->. Qed.

Lemma bind_inv_ok {A B} (m : M A) (k : A → M B) st b st' :
  bind m k st = (Ok b, st') →
  ∃ a st1, m st = (Ok a, st1) ∧ k a st1 = (Ok b, st').
Proof.
  unfold bind. destruct (m st) as [[a|e] st1]; [eauto | discriminate].
Qed.

Lemma set_world_id st : set_world (world st) st = st.
Proof. by destruct st. Qed.

Lemma set_cwd_id w : set_cwd (cwd w) w = w.
Proof. by destruct w. Qed.

(** ** Relations that every step of an operation respects *)

Section inv_rules.
Context {P : event → bool} {R : relation State} (HR : frame P R).

Lemma frame_refl st : R st st.
Proof. apply (frame_preorder P R HR). Qed.

Lemma frame_trans st1 st2 st3 : R st1 st2 → R st2 st3 → R st1 st3.
Proof. apply (frame_preorder P R HR). Qed.

Lemma inv_ret {A} (a : A) : inv R (ret a).
Proof. intros st. apply frame_refl. Qed.

Lemma inv_raise {A} (e : exn) : inv R (@raise A e).
Proof. intros st. apply frame_refl. Qed.

Lemma inv_lift {A} (r : Res A) : inv R (lift r).
Proof. intros st. apply frame_refl. Qed.

Lemma inv_bind {A B} (m : M A) (k : A → M B) :
  inv R m → (∀ a, inv R (k a)) → inv R (bind m k).
Proof.
  intros Hm Hk st. unfold bind. specialize (Hm st).
  destruct (m st) as [[a|e] st1]; simpl in *; [|done].
  eapply frame_trans; [exact Hm | apply Hk].
Qed.

Lemma inv_call {A} (e : event) (f : extern A) : P e = true → inv R (call e f).
Proof.
  intros He st. unfold call.
  destruct (f (log_event e (world st))) as [r f'] eqn:E. simpl.
  eapply frame_trans; [apply (frame_log P R HR st e He)|].
  apply (frame_fs P R HR (set_world (log_event e (world st)) st) f').
Qed.

Lemma inv_local_path name : inv R (local_path name).
Proof. intros st. apply frame_refl. Qed.

Lemma inv_path_exists p : inv R (path_exists p).
Proof. intros st. apply frame_refl. Qed.

Lemma inv_logger_info fmt arg :
  P (EvLog fmt arg) = true → inv R (logger_info fmt arg).
Proof. intros He st. by apply (frame_log P R HR). Qed.

Lemma inv_scoped {A} (body : M A) c old st :
  inv R body →
  R st (finally body (λ st', set_world (set_cwd old (world st')) st')
          (set_world (set_cwd c (world st)) st)).2.
Proof.
  intros Hb. unfold finally.
  specialize (Hb (set_world (set_cwd c (world st)) st)).
  destruct (body _) as [r st1]. simpl in *.
  eapply frame_trans; [apply (frame_cwd P R HR st c)|].
  eapply frame_trans; [exact Hb|]. apply (frame_cwd P R HR).
Qed.

Lemma inv_in_hooks_workspace {A} env (body : M A) :
  inv R body → inv R (in_hooks_workspace env body).
Proof. intros Hb st. by apply inv_scoped. Qed.

Lemma inv_local_cwd {A} name (body : M A) :
  inv R body → inv R (local_cwd name body).
Proof.
  intros Hb st. unfold local_cwd. case_bool_decide.
  - by apply inv_scoped.
  - apply frame_refl.
Qed.

Lemma inv_clean_path_on_failure {A} p (body : M A) :
  inv R body → inv R (clean_path_on_failure p body).
Proof.
  intros Hb st. unfold clean_path_on_failure, on_failure.
  specialize (Hb st). destruct (body st) as [[a|e] st1]; simpl in *; [done|].
  eapply frame_trans; [exact Hb|]. apply (frame_fs P R HR).
Qed.

Lemma inv_cached_property {A} slot store (compute : M A) :
  inv R compute → (∀ st v, R st (store v st)) →
  inv R (cached_property slot store compute).
Proof.
  intros Hc Hs st. unfold cached_property.
  destruct (slot st); [apply frame_refl|].
  specialize (Hc st). destruct (compute st) as [[v|e] st1]; simpl in *; [|done].
  eapply frame_trans; [exact Hc | apply Hs].
Qed.

Lemma inv_require_created_with (create : M unit) :
  inv R create → inv R (Repository.require_created_with create).
Proof.
  intros Hc st. unfold Repository.require_created_with.
  destruct (__created st); [apply frame_refl|].
  apply inv_bind; [done|]. intros _ st'. apply (frame_created P R HR).
Qed.

Context (env : Env) (repo_config : Config).
Context (HP : ∀ e, setup_event e = true → P e = true).

Lemma inv_in_checkout_with {A} (create : M unit) (body : M A) :
  inv R create → inv R body →
  inv R (Repository.in_checkout_with env repo_config create body).
Proof.
  intros Hc Hb. apply inv_bind; [by apply inv_require_created_with|].
  intros _. by apply inv_in_hooks_workspace, inv_local_cwd.
Qed.

Lemma inv_create_at d : inv R (Repository.create_at env repo_config d).
Proof.
  induction d as [|d IH]; [apply inv_raise|]. simpl.
  apply inv_in_hooks_workspace.
  apply inv_bind; [apply inv_local_path|]. intros p.
  apply inv_bind; [apply inv_path_exists|]. intros [|]; [apply inv_ret|].
  repeat (apply inv_bind; [by apply inv_logger_info, HP|]; intros _).
  apply inv_bind; [apply inv_local_path|]. intros target.
  apply inv_clean_path_on_failure.
  apply inv_bind; [by apply inv_call, HP|]. intros _.
  apply inv_in_checkout_with; [done|]. by apply inv_call, HP.
Qed.

Lemma inv_create : inv R (Repository.create env repo_config).
Proof. apply inv_create_at. Qed.

Lemma inv_require_created : inv R (Repository.require_created env repo_config).
Proof. apply inv_require_created_with, inv_create. Qed.

Lemma inv_manifest : inv R (Repository.manifest env repo_config).
Proof.
  apply inv_cached_property; [|apply (frame_manifest P R HR)].
  apply inv_in_checkout_with; [apply inv_create|].
  apply inv_bind; [by apply inv_call, HP|]. intros entries. apply inv_lift.
Qed.

Lemma inv_hooks_items decl od :
  inv R (Repository.hooks_items env repo_config decl od).
Proof.
  revert od. induction decl as [|hook rest IH]; intros od; [apply inv_ret|].
  simpl.
  apply inv_bind; [apply inv_lift|]. intros key.
  apply inv_bind; [apply inv_manifest|]. intros m.
  repeat (apply inv_bind; [apply inv_lift|]; intros ?).
  apply IH.
Qed.

Lemma inv_hooks : frame_hooks R → inv R (Repository.hooks env repo_config).
Proof.
  intros Hh. apply inv_cached_property; [apply inv_hooks_items|].
  intros st v. apply Hh.
Qed.

Lemma inv_languages_of :
  frame_hooks R → frame_languages R →
  inv R (Repository.languages_of env repo_config).
Proof.
  intros Hh Hl. apply inv_cached_property; [|intros st v; apply Hl].
  apply inv_bind; [by apply inv_hooks|]. intros od. apply inv_lift.
Qed.

Lemma inv_install_one rr name :
  P (EvInstall name rr) = true →
  inv R (Repository.install_one env rr name).
Proof.
  intros He. unfold Repository.install_one.
  apply inv_bind; [apply inv_lift|]. intros language.
  destruct (ENVIRONMENT_DIR language) as [dir|]; [|apply inv_ret].
  apply inv_bind; [apply inv_path_exists|]. intros [|]; [apply inv_ret|].
  by apply inv_call.
Qed.

Lemma inv_install_loop rr names :
  (∀ name, name ∈ names → P (EvInstall name rr) = true) →
  inv R (Repository.install_loop env rr names).
Proof.
  induction names as [|name rest IH]; intros He; [apply inv_ret|]. simpl.
  apply inv_bind.
  - apply inv_install_one, He. left.
  - intros _. apply IH. intros n Hn. apply He. by right.
Qed.

Lemma inv_install r :
  frame_hooks R → frame_languages R →
  (∀ name rr, P (EvInstall name rr) = true) →
  inv R (Repository.install env repo_config r).
Proof.
  intros Hh Hl He. unfold Repository.install.
  apply inv_bind; [apply inv_require_created|]. intros _.
  apply inv_bind; [by apply inv_languages_of|]. intros names.
  apply inv_install_loop. intros; apply He.
Qed.
End inv_rules.

(** ** The relations used below *)

Lemma same_frame {X} (f : State → X) P :
  (∀ st w, f (set_world w st) = f st) →
  (∀ st, f (set_created true st) = f st) →
  (∀ st m, f (set_manifest_slot m st) = f st) →
  frame P (same f).
Proof.
  intros Hw Hc Hm. split; unfold same; try done.
  split; [by intros ?|]. intros x y z Hxy Hyz. congruence.
Qed.


Lemma same_count_frame p : frame (λ e, negb (p e)) (same_count p).
Proof.
  split; unfold same_count, same; try done.
  - split; [by intros ?|]. intros x y z Hxy Hyz. congruence.
  - intros st e He. unfold count_ev. simpl.
    by destruct (p e).
Qed.

Lemma same_count_hooks p : frame_hooks (same_count p).
Proof. by intros st od. Qed.

Lemma same_count_languages p : frame_languages (same_count p).
Proof. by intros st s. Qed.


Lemma grows_frame : frame (λ _, true) grows.
Proof.
  split; unfold grows; try (intros; simpl; reflexivity).
  - split; [by intros ?|]. intros x y z Hxy Hyz. by etrans.
  - intros st e _. simpl. by apply suffix_cons_r.
Qed.

Lemma grows_count p st st' :
  grows st st' →
  (count_ev p (trace (world st)) ≤ count_ev p (trace (world st')))%nat.
Proof.
  intros [new ->]. unfold count_ev. rewrite List.filter_app, length_app. lia.
Qed.


Lemma created_stays_frame : frame (λ _, true) created_stays.
Proof.
  split; unfold created_stays; try done.
  split; [by intros ?|]. intros x y z Hxy Hyz. auto.
Qed.

(** ** The cached properties *)

Section cached.
Context (env : Env) (repo_config : Config).
#[local] Abbreviation manifest := (Repository.manifest env repo_config).
#[local] Abbreviation hooks := (Repository.hooks env repo_config).
#[local] Abbreviation hooks_items :=
  (Repository.hooks_items env repo_config).

Lemma manifest_cached st m :
  manifest_slot st = Some m → manifest st = (Ok m, st).
Proof.
  intros H. unfold Repository.manifest, cached_property. by rewrite H.
Qed.

Lemma manifest_stores st m st1 :
  manifest st = (Ok m, st1) → manifest_slot st1 = Some m.
Proof.
  unfold Repository.manifest, cached_property.
  destruct (manifest_slot st) as [v|] eqn:E.
  - intros [= -> ->]. done.
  - destruct (Repository.in_checkout _ _ _ st) as [[v|e] st'];
      intros [= <- <-]; done.
Qed.


Lemma hooks_items_cached decl od st m :
  manifest_slot st = Some m →
  hooks_items decl od st = (merge_items m decl od, st).
Proof.
  intros Hm. revert od. induction decl as [|hook rest IH]; intros od; [done|].
  simpl. unfold bind at 1, lift at 1.
  destruct (getitem hook "id") as [key|e]; [|done]. simpl.
  rewrite (bind_ok _ _ _ _ _ (manifest_cached st m Hm)).
  unfold bind at 1, lift at 1.
  destruct (dict_getitem m key) as [entry|e]; [|done]. simpl.
  unfold bind at 1, lift at 1.
  destruct (hash_key key) as [k|e]; [|done]. simpl.
  apply IH.
Qed.

(** The first declared hook triggers the evaluation of [manifest]; the
    others find it cached. *)
Lemma hooks_items_run hook rest od st key m st1 :
  getitem hook "id" = Ok key →
  manifest st = (Ok m, st1) →
  hooks_items (hook :: rest) od st = (merge_items m (hook :: rest) od, st1).
Proof.
  intros Hk Hm. simpl. unfold bind at 1, lift at 1. rewrite Hk. simpl.
  rewrite (bind_ok _ _ _ _ _ Hm).
  unfold bind at 1, lift at 1.
  destruct (dict_getitem m key) as [entry|e]; [|done]. simpl.
  unfold bind at 1, lift at 1.
  destruct (hash_key key) as [k|e]; [|done]. simpl.
  apply hooks_items_cached. by eapply manifest_stores.
Qed.

Lemma hooks_run st hook rest key m st1 :
  hooks_slot st = None →
  cfg_hooks repo_config = hook :: rest →
  getitem hook "id" = Ok key →
  manifest st = (Ok m, st1) →
  hooks st =
    match merge_items m (hook :: rest) [] with
    | Ok od => (Ok od, set_hooks_slot od st1)
    | Raise e => (Raise e, st1)
    end.
Proof.
  intros Hs Hc Hk Hm. unfold Repository.hooks, cached_property.
  rewrite Hs, Hc, (hooks_items_run _ _ _ _ _ _ _ Hk Hm).
  by destruct (merge_items _ _ _).
Qed.
End cached.

(** ** The merge, as a function of the manifest *)

Lemma od_lookup_setitem od k v k' :
  od_lookup (od_setitem od k v) k' =
    if decide (k = k') then Some v else od_lookup od k'.
Proof.
  induction od as [|[k0 v0] od IH]; simpl.
  - by repeat case_decide.
  - repeat (case_decide; simpl; subst); try done.
Qed.

Lemma od_setitem_keys od k v :
  (od_setitem od k v).*1 = if decide (k ∈ od.*1) then od.*1 else od.*1 ++ [k].
Proof.
  induction od as [|[k0 v0] od IH]; csimpl.
  - done.
  - destruct (decide (k0 = k)) as [->|Hne]; csimpl.
    + rewrite decide_True; [done | left].
    + rewrite IH. destruct (decide (k ∈ od.*1)) as [Hin|Hin].
      * rewrite decide_True; [done | by right].
      * rewrite decide_False; [done|]. by intros [?|?]%elem_of_cons.
Qed.

Lemma od_setitem_nodup od k v : NoDup od.*1 → NoDup (od_setitem od k v).*1.
Proof.
  intros H. rewrite od_setitem_keys. case_decide as Hin; [done|].
  apply NoDup_app. split_and!; [done | | apply NoDup_singleton].
  intros x Hx ->%list_elem_of_singleton. done.
Qed.

Lemma has_id_getitem i hook : has_id i hook → getitem hook "id" = Ok (VStr i).
Proof. unfold has_id, getitem. by intros ->. Qed.

Lemma merge_items_step m hook rest od i entry :
  has_id i hook → m !! i = Some entry →
  merge_items m (hook :: rest) od =
    merge_items m rest (od_setitem od i (dict_update hook entry)).
Proof.
  intros Hi He. simpl. rewrite (has_id_getitem _ _ Hi). simpl.
  unfold dict_getitem. simpl. by rewrite He.
Qed.

Lemma merge_items_total m decl od :
  Forall (matched m) decl → ∃ od', merge_items m decl od = Ok od'.
Proof.
  intros H. revert od. induction H as [|hook rest (i & Hi & [entry He]) _ IH];
    intros od; [by eexists|].
  rewrite (merge_items_step _ _ _ _ _ _ Hi He). apply IH.
Qed.

Lemma merge_items_nodup m decl od od' :
  merge_items m decl od = Ok od' → NoDup od.*1 → NoDup od'.*1.
Proof.
  revert od. induction decl as [|hook rest IH]; intros od; simpl.
  - by intros [= ->].
  - destruct (getitem hook "id") as [key|]; [simpl|done].
    destruct (dict_getitem m key) as [entry|]; [simpl|done].
    destruct (hash_key key) as [k|]; [simpl|done].
    intros H Hnd. eapply IH; [done|]. by apply od_setitem_nodup.
Qed.

(** Hooks with another id leave the item of [i] alone. *)
Lemma merge_items_other m decl i od od' :
  merge_items m decl od = Ok od' →
  Forall (λ h, ¬ has_id i h) decl →
  od_lookup od' i = od_lookup od i.
Proof.
  revert od. induction decl as [|hook rest IH]; intros od; simpl.
  - by intros [= ->].
  - destruct (getitem hook "id") as [key|] eqn:Hk; [simpl|done].
    destruct (dict_getitem m key) as [entry|]; [simpl|done].
    destruct key as [k|l]; [simpl|done].
    intros H [Hn Hrest]%Forall_cons. rewrite (IH _ H Hrest).
    rewrite od_lookup_setitem. case_decide as E; [|done]. subst k.
    exfalso. apply Hn. unfold has_id, getitem in *.
    by destruct (hook !! "id"); simplify_eq.
Qed.

(** The item of [i] comes from the last declared hook with that id. *)
Lemma merge_items_last m pre hook post i entry od od' :
  merge_items m (pre ++ hook :: post) od = Ok od' →
  has_id i hook → Forall (λ h, ¬ has_id i h) post →
  m !! i = Some entry →
  od_lookup od' i = Some (dict_update hook entry).
Proof.
  revert od. induction pre as [|h0 pre IH]; intros od H Hi Hpost He.
  - simpl app in H. rewrite (merge_items_step _ _ _ _ _ _ Hi He) in H.
    rewrite (merge_items_other _ _ _ _ _ H Hpost), od_lookup_setitem.
    by rewrite decide_True.
  - simpl in H.
    destruct (getitem h0 "id") as [key|]; [simpl in H|done].
    destruct (dict_getitem m key) as [e0|]; [simpl in H|done].
    destruct (hash_key key) as [k|]; [simpl in H|done].
    by eapply IH.
Qed.


Lemma dict_update_lookup (hook entry : hook_dict) (field : string) :
  dict_update hook entry !! field =
    match entry !! field with
    | Some v => Some v
    | None => hook !! field
    end.
Proof.
  unfold dict_update. rewrite lookup_union.
  by destruct (entry !! field), (hook !! field).
Qed.

Lemma id_of_has_id hook i : id_of hook = Some i ↔ has_id i hook.
Proof.
  unfold id_of, has_id. destruct (hook !! "id") as [[j|l]|]; naive_solver.
Qed.

Lemma all_matched_Forall m decl :
  all_matched m decl = true → Forall (matched m) decl.
Proof.
  induction decl as [|hook decl IH]; simpl; [by constructor|].
  intros [H Hrest]%andb_true_iff. constructor; [|by apply IH].
  destruct (id_of hook) as [i|] eqn:E; [|done].
  exists i. split; [by apply id_of_has_id | by apply bool_decide_eq_true in H].
Qed.

Lemma none_has_id_Forall i decl :
  none_has_id i decl = true → Forall (λ h, ¬ has_id i h) decl.
Proof.
  induction decl as [|hook decl IH]; simpl; [by constructor|].
  intros [H Hrest]%andb_true_iff. constructor; [|by apply IH].
  by apply negb_true_iff, bool_decide_eq_false in H.
Qed.


(** ** The effective hooks *)

Section effective_hooks.
Context (env : Env) (repo_config : Config).
#[local] Abbreviation manifest := (Repository.manifest env repo_config).
#[local] Abbreviation hooks := (Repository.hooks env repo_config).

(** With every declared hook known to the manifest, [hooks] returns and
    stores the merge. *)
Lemma hooks_total st m st1 :
  hooks_slot st = None →
  manifest st = (Ok m, st1) →
  cfg_hooks repo_config ≠ [] →
  Forall (matched m) (cfg_hooks repo_config) →
  ∃ od, merge_items m (cfg_hooks repo_config) [] = Ok od ∧
        hooks st = (Ok od, set_hooks_slot od st1).
Proof.
  intros Hs Hm Hne Hall.
  destruct (merge_items_total m _ [] Hall) as [od Hod]. exists od.
  split; [done|].
  destruct (cfg_hooks repo_config) as [|hook rest] eqn:Hc; [done|].
  apply Forall_cons in Hall as [(j & Hj & _) _].
  rewrite (hooks_run env repo_config st hook rest _ m st1 Hs Hc
             (has_id_getitem _ _ Hj) Hm).
  by rewrite Hod.
Qed.

(** C1, as amended: for a declared hook and the manifest entry with the
    same id, the effective hook stored under that id by [hooks] takes
    every field that the manifest entry specifies from the manifest
    entry, and falls back to the declared record only for the fields
    absent from the manifest entry. *)
Theorem hooks_merge_manifest_wins st m st1 pre hook post i entry :
  hooks_slot st = None →
  manifest st = (Ok m, st1) →
  cfg_hooks repo_config = pre ++ hook :: post →
  all_matched m (cfg_hooks repo_config) = true →
  has_id i hook →
  none_has_id i post = true →
  m !! i = Some entry →
  ∃ od, hooks st = (Ok od, set_hooks_slot od st1) ∧
        od_lookup od i = Some (dict_update hook entry) ∧
        ∀ field, dict_update hook entry !! field =
                   match entry !! field with
                   | Some v => Some v
                   | None => hook !! field
                   end.
Proof.
  intros Hs Hm Hc Hall Hi Hpost He.
  destruct (hooks_total st m st1 Hs Hm) as (od & Hod & Hrun).
  - rewrite Hc. by destruct pre.
  - by apply all_matched_Forall.
  - exists od. split_and!; [done| |apply dict_update_lookup].
    rewrite Hc in Hod.
    eapply merge_items_last; [done..|by apply none_has_id_Forall|done].
Qed.

(** C10: when two declared hooks (or more) carry the same id, [hooks]
    raises nothing, keeps one item per id, and the item of that id is
    the merge of the last declared hook with that id. *)
Theorem hooks_duplicate_id_last_wins st m st1 l1 h1 l2 h2 l3 i entry :
  hooks_slot st = None →
  manifest st = (Ok m, st1) →
  cfg_hooks repo_config = l1 ++ h1 :: l2 ++ h2 :: l3 →
  all_matched m (cfg_hooks repo_config) = true →
  has_id i h1 → has_id i h2 →
  none_has_id i l3 = true →
  m !! i = Some entry →
  ∃ od, hooks st = (Ok od, set_hooks_slot od st1) ∧
        od_lookup od i = Some (dict_update h2 entry) ∧
        NoDup od.*1.
Proof.
  intros Hs Hm Hc Hall _ Hi Hpost He.
  destruct (hooks_total st m st1 Hs Hm) as (od & Hod & Hrun).
  - rewrite Hc. by destruct l1.
  - by apply all_matched_Forall.
  - exists od. split_and!; [done| |].
    + rewrite Hc in Hod.
      replace (l1 ++ h1 :: l2 ++ h2 :: l3)
        with ((l1 ++ h1 :: l2) ++ h2 :: l3) in Hod
        by (by rewrite <- app_assoc).
      eapply merge_items_last; [done..|by apply none_has_id_Forall|done].
    + eapply merge_items_nodup; [done|]. constructor.
Qed.

End effective_hooks.

Lemma hooks_merge_manifest_wins_witness :
  ∃ od,
    Repository.hooks Scenario.env (Scenario.config [Scenario.override_x])
      (init Scenario.empty_world)
    = (Ok od, set_hooks_slot od (Scenario.after_manifest [Scenario.override_x]))
    ∧ od_lookup od "x"
      = Some (dict_update Scenario.override_x Scenario.entry_x)
    ∧ ∀ field,
        dict_update Scenario.override_x Scenario.entry_x !! field =
          match Scenario.entry_x !! field with
          | Some v => Some v
          | None => Scenario.override_x !! field
          end.
Proof.
  apply (hooks_merge_manifest_wins Scenario.env
           (Scenario.config [Scenario.override_x]) (init Scenario.empty_world)
           Scenario.manifest_map
           (Scenario.after_manifest [Scenario.override_x])
           [] Scenario.override_x [] "x" Scenario.entry_x);
    vm_compute; reflexivity.
Defined.

(** The override of the example of C1 asks for [args = ["--fix"]]; the
    effective hook keeps the [args = []] of the manifest entry. *)
Lemma hooks_override_does_not_win :
  ∃ od,
    (Repository.hooks Scenario.env (Scenario.config [Scenario.override_x])
       (init Scenario.empty_world)).1 = Ok od
    ∧ Scenario.override_x !! "args" = Some (VList ["--fix"])
    ∧ od_lookup od "x"
      = Some {[ "id" := VStr "x"; "language" := VStr "python";
                "args" := VList [] ]}
    ∧ od_lookup od "x"
      ≠ Some {[ "id" := VStr "x"; "language" := VStr "python";
                "args" := VList ["--fix"] ]}.
Proof.
  eexists. split_and!; [vm_compute; reflexivity..|].
  intros H. apply (f_equal (λ o, o ≫= (.!! "args"))) in H.
  vm_compute in H. discriminate H.
Qed.

Lemma hooks_duplicate_id_last_wins_witness :
  ∃ od,
    Repository.hooks Scenario.env
      (Scenario.config [Scenario.override_x; Scenario.override_x'])
      (init Scenario.empty_world)
    = (Ok od,
       set_hooks_slot od
         (Scenario.after_manifest [Scenario.override_x; Scenario.override_x']))
    ∧ od_lookup od "x"
      = Some (dict_update Scenario.override_x' Scenario.entry_x)
    ∧ NoDup od.*1.
Proof.
  apply (hooks_duplicate_id_last_wins Scenario.env
           (Scenario.config [Scenario.override_x; Scenario.override_x'])
           (init Scenario.empty_world) Scenario.manifest_map
           (Scenario.after_manifest [Scenario.override_x; Scenario.override_x'])
           [] Scenario.override_x [] Scenario.override_x' [] "x"
           Scenario.entry_x);
    vm_compute; reflexivity.
Defined.



(** ** Fetching *)

Section fetch.
Context (env : Env) (repo_config : Config).
#[local] Abbreviation dir := (checkout_dir env repo_config).
#[local] Abbreviation create_at := (Repository.create_at env repo_config).

Lemma rmtree_gone (p : path) (f : gset path) : p ∉ rmtree p f.
Proof. unfold rmtree. rewrite elem_of_filter. intros [H _]. by apply H. Qed.

Lemma create_at_present d st :
  dir ∈ fs (world st) → create_at (S d) st = (Ok tt, st).
Proof.
  intros Hin. simpl. unfold in_hooks_workspace, finally.
  unfold bind at 1, local_path at 1. simpl.
  unfold bind at 1, path_exists at 1. simpl.
  rewrite bool_decide_eq_true_2 by done. simpl.
  destruct st as [c i ms hs ls [f cw t]]. done.
Qed.

Lemma create_at_failure d st e st' :
  create_at (S d) st = (Raise e, st') → dir ∉ fs (world st').
Proof.
  simpl. unfold in_hooks_workspace, finally.
  unfold bind at 1, local_path at 1. simpl.
  unfold bind at 1, path_exists at 1. simpl.
  case_bool_decide as Hin; [done|].
  unfold bind at 1, logger_info at 1. simpl.
  unfold bind at 1, logger_info at 1. simpl.
  unfold bind at 1, logger_info at 1. simpl.
  unfold bind at 1, local_path at 1. simpl.
  unfold clean_path_on_failure, on_failure.
  match goal with |- context [bind ?m ?k ?s] => destruct (bind m k s) as [[[]|e'] st1] end;
    [done|].
  intros [= <- <-]. simpl. apply rmtree_gone.
Qed.
End fetch.

Section fetch_once.
Context (env : Env) (repo_config : Config).
Context (Hclone : clone_creates_target env) (Hcheckout : checkout_keeps_cwd env).
#[local] Abbreviation dir := (checkout_dir env repo_config).
#[local] Abbreviation sha := (Repository.sha repo_config).
#[local] Abbreviation create_at := (Repository.create_at env repo_config).

Lemma checkout_step s :
  dir ∈ fs (world s) →
  let '(r, s') :=
    in_hooks_workspace env
      (local_cwd sha (call (EvCheckout sha) (git_checkout env sha))) s in
  clones s' = clones s ∧ checkouts s' = S (checkouts s) ∧
  (r = Ok tt → dir ∈ fs (world s')).
Proof.
  intros Hin. unfold in_hooks_workspace, finally, local_cwd. simpl.
  rewrite bool_decide_eq_true_2 by done.
  unfold finally, call. simpl.
  destruct (git_checkout env sha _) as [r f] eqn:E. simpl.
  split_and!; [done..|]. intros ->.
  by apply (Hcheckout _ _ _ E).
Qed.

Lemma checkout_block d s :
  dir ∈ fs (world s) →
  let '(r, s') :=
    Repository.in_checkout_with env repo_config (create_at d)
      (call (EvCheckout sha) (git_checkout env sha)) s in
  clones s' = clones s ∧ (checkouts s' ≤ S (checkouts s))%nat ∧
  (r = Ok tt → dir ∈ fs (world s')).
Proof.
  intros Hin. unfold Repository.in_checkout_with.
  unfold bind at 1, Repository.require_created_with.
  destruct (__created s) eqn:Hc.
  - pose proof (checkout_step s Hin) as H.
    destruct (in_hooks_workspace _ _ s) as [r s'].
    destruct H as (H1 & H2 & H3). split_and!; [done|lia|done].
  - destruct d as [|d].
    + simpl. split_and!; [done|lia|done].
    + unfold bind at 1. rewrite (create_at_present env repo_config d s Hin).
      pose proof (checkout_step (set_created true s) Hin) as H.
      destruct (in_hooks_workspace _ _ (set_created true s)) as [r s'].
      destruct H as (H1 & H2 & H3). unfold clones, checkouts in *.
      simpl in *. split_and!; [done|lia|done].
Qed.

Lemma create_at_once d st :
  let '(r, st') := create_at d st in
  (clones st' ≤ S (clones st))%nat ∧ (checkouts st' ≤ S (checkouts st))%nat ∧
  (r = Ok tt → dir ∈ fs (world st')).
Proof.
  destruct d as [|d]; [simpl; split_and!; [lia|lia|done]|].
  destruct (decide (dir ∈ fs (world st))) as [Hin|Hout].
  { rewrite (create_at_present env repo_config d st Hin).
    split_and!; [lia|lia|done]. }
  simpl. unfold in_hooks_workspace, finally.
  unfold bind at 1, local_path at 1. simpl.
  unfold bind at 1, path_exists at 1. simpl.
  rewrite bool_decide_eq_false_2 by done.
  unfold bind at 1, logger_info at 1. simpl.
  unfold bind at 1, logger_info at 1. simpl.
  unfold bind at 1, logger_info at 1. simpl.
  unfold bind at 1, local_path at 1. simpl.
  unfold clean_path_on_failure, on_failure.
  unfold bind at 1, call at 1. simpl.
  destruct (git_clone env _ sha _) as [[[]|e] f] eqn:E; simpl.
  - match goal with |- context [Repository.in_checkout_with _ _ ?c ?b ?s] =>
      pose proof (checkout_block d s) as H;
      destruct (Repository.in_checkout_with _ _ c b s) as [[[]|e] s'] end;
    simpl in *.
    + destruct H as (H1 & H2 & H3); [by apply (Hclone _ _ _ _ E)|].
      unfold clones, checkouts, count_ev in *. simpl in *. split_and!; [lia|lia|auto].
    + destruct H as (H1 & H2 & H3); [by apply (Hclone _ _ _ _ E)|].
      unfold clones, checkouts, count_ev in *. simpl in *. split_and!; [lia|lia|done].
  - unfold clones, checkouts, count_ev. simpl. split_and!; [lia|lia|done].
Qed.
End fetch_once.

Section fetch_theorems.
Context (env : Env) (repo_config : Config).
#[local] Abbreviation dir := (checkout_dir env repo_config).
#[local] Abbreviation create := (Repository.create env repo_config).
#[local] Abbreviation require_created :=
  (Repository.require_created env repo_config).

Lemma repeat_create_present n st :
  (0 < recursion_limit env)%nat → dir ∈ fs (world st) →
  Repository.repeat_call n create st = (Ok tt, st).
Proof.
  intros Hlim Hin. unfold Repository.create.
  destruct (recursion_limit env) as [|d]; [lia|].
  induction n as [|n IH]; [done|]. cbn [Repository.repeat_call].
  unfold bind. by rewrite (create_at_present env repo_config d st Hin).
Qed.

Lemma require_created_set st :
  __created st = true → require_created st = (Ok tt, st).
Proof.
  intros H. unfold Repository.require_created, Repository.require_created_with.
  by rewrite H.
Qed.

Lemma repeat_require_created_set n st :
  __created st = true →
  Repository.repeat_call n require_created st = (Ok tt, st).
Proof.
  intros H. induction n as [|n IH]; [done|]. simpl.
  unfold bind. by rewrite (require_created_set st H).
Qed.

Lemma require_created_unset st :
  __created st = false →
  require_created st =
    match create st with
    | (Ok _, st') => (Ok tt, set_created true st')
    | (Raise e, st') => (Raise e, st')
    end.
Proof.
  intros H. unfold Repository.require_created, Repository.require_created_with.
  rewrite H. unfold bind. by destruct (create st) as [[[]|e] st'].
Qed.

(** C2, as amended: [n] calls in a row of [create], or of
    [require_created], on the same repository run [git clone] at most
    once and [git checkout] at most once; and when the checkout
    directory is already on disk and the [__created] flag is not set,
    [require_created] calls neither and sets the flag.  ([git] is taken
    to keep its contract: a successful clone creates its target, a
    successful checkout keeps the directory it runs in.) *)
Theorem fetch_at_most_once n st :
  clone_creates_target env →
  checkout_keeps_cwd env →
  (0 < recursion_limit env)%nat →
  (let st' := (Repository.repeat_call n create st).2 in
   (clones st' ≤ S (clones st))%nat ∧
   (checkouts st' ≤ S (checkouts st))%nat) ∧
  (let st' := (Repository.repeat_call n require_created st).2 in
   (clones st' ≤ S (clones st))%nat ∧
   (checkouts st' ≤ S (checkouts st))%nat) ∧
  (__created st = false → dir ∈ fs (world st) →
   ∃ st', require_created st = (Ok tt, st') ∧ __created st' = true ∧
          world st' = world st ∧
          clones st' = clones st ∧ checkouts st' = checkouts st).
Proof.
  intros Hclone Hcheckout Hlim.
  pose proof (create_at_once env repo_config Hclone Hcheckout
                (recursion_limit env) st) as Honce.
  fold create in Honce. split_and!.
  - destruct n as [|n]; simpl; [lia|]. unfold bind.
    destruct (create st) as [[[]|e] st1]; simpl in *;
      destruct Honce as (H1 & H2 & H3); [|done].
    by rewrite (repeat_create_present n st1 Hlim (H3 eq_refl)).
  - destruct n as [|n]; simpl; [lia|]. unfold bind.
    destruct (__created st) eqn:Hc.
    + rewrite (require_created_set st Hc),
        (repeat_require_created_set n st Hc). simpl. lia.
    + rewrite (require_created_unset st Hc).
      destruct (create st) as [[[]|e] st1]; simpl in *;
        destruct Honce as (H1 & H2 & H3); [|done].
      by rewrite (repeat_require_created_set n (set_created true st1) eq_refl).
  - intros Hc Hin. exists (set_created true st).
    rewrite (require_created_unset st Hc). unfold Repository.create.
    destruct (recursion_limit env) as [|d]; [lia|].
    by rewrite (create_at_present env repo_config d st Hin).
Qed.

Lemma create_at_checkout_failure d st f1 e f2 :
  dir ∉ fs (world st) →
  git_clone env (Repository.repo_url repo_config)
    (Repository.sha repo_config) (world_at_clone env repo_config (world st))
    = (Ok tt, f1) →
  dir ∈ f1 →
  git_checkout env (Repository.sha repo_config)
    (world_at_checkout env repo_config (world st) f1) = (Raise e, f2) →
  (Repository.create_at env repo_config (S (S d)) st).1 = Raise e.
Proof.
  intros Hout Hclone Hin Hcheckout.
  remember (S d) as d' eqn:Hd. simpl.
  unfold in_hooks_workspace at 1, finally.
  unfold bind at 1, local_path at 1. simpl.
  unfold bind at 1, path_exists at 1. simpl.
  rewrite bool_decide_eq_false_2 by done.
  unfold bind at 1, logger_info at 1. simpl.
  unfold bind at 1, logger_info at 1. simpl.
  unfold bind at 1, logger_info at 1. simpl.
  unfold bind at 1, local_path at 1. simpl.
  unfold clean_path_on_failure, on_failure.
  unfold bind at 1, call at 1. simpl.
  match goal with |- context [git_clone env ?u ?s ?w] =>
    change w with (world_at_clone env repo_config (world st)) end.
  rewrite Hclone.
  match goal with |- context [Repository.in_checkout_with _ _ ?c ?b ?s] =>
    assert ((Repository.in_checkout_with env repo_config c b s).1 = Raise e)
      as Hblock end.
  { unfold Repository.in_checkout_with.
    unfold bind at 1, Repository.require_created_with.
    match goal with |- context [if ?b then _ else _] => destruct b end.
    - unfold in_hooks_workspace, finally, local_cwd. simpl.
      rewrite bool_decide_eq_true_2 by done.
      unfold finally, call. simpl.
      match goal with |- context [git_checkout env ?s ?w] =>
        change w with (world_at_checkout env repo_config (world st) f1) end.
      by rewrite Hcheckout.
    - unfold bind at 1. subst d'.
      match goal with
      | |- context [Repository.create_at env repo_config (S d) ?s] =>
          rewrite (create_at_present env repo_config d s Hin)
      end.
      unfold in_hooks_workspace, finally, local_cwd. simpl.
      rewrite bool_decide_eq_true_2 by done.
      unfold finally, call. simpl.
      match goal with |- context [git_checkout env ?s ?w] =>
        change w with (world_at_checkout env repo_config (world st) f1) end.
      by rewrite Hcheckout. }
  match goal with |- context [Repository.in_checkout_with _ _ ?c ?b ?s] =>
    destruct (Repository.in_checkout_with env repo_config c b s)
      as [[[]|e'] s'] end; simpl in *; congruence.
Qed.

(** C3: when [git clone] has succeeded and [git checkout] then fails,
    [create] propagates the error of [git checkout] and the checkout
    directory does not exist in the state it leaves; more generally,
    whenever [create] raises, that directory does not exist afterwards,
    so a later [exists] test cannot take the repository for fetched. *)
Theorem create_failure_leaves_no_checkout st :
  (1 < recursion_limit env)%nat →
  (∀ e st', create st = (Raise e, st') → dir ∉ fs (world st')) ∧
  (∀ f1 e f2,
     dir ∉ fs (world st) →
     git_clone env (Repository.repo_url repo_config)
       (Repository.sha repo_config)
       (world_at_clone env repo_config (world st)) = (Ok tt, f1) →
     dir ∈ f1 →
     git_checkout env (Repository.sha repo_config)
       (world_at_checkout env repo_config (world st) f1) = (Raise e, f2) →
     ∃ st', create st = (Raise e, st') ∧ dir ∉ fs (world st')).
Proof.
  unfold Repository.create. intros Hlim.
  destruct (recursion_limit env) as [|[|d]]; [lia..|].
  split; [intros e st'; apply create_at_failure|].
  intros f1 e f2 Hout Hclone Hin Hcheckout.
  pose proof (create_at_checkout_failure d st f1 e f2 Hout Hclone Hin
                Hcheckout) as Hfail.
  destruct (Repository.create_at env repo_config (S (S d)) st)
    as [r st'] eqn:E.
  simpl in Hfail. subst r. exists st'. split; [done|].
  by apply (create_at_failure env repo_config (S d) st e st').
Qed.
End fetch_theorems.

Lemma scenario_clone_creates_target : clone_creates_target Scenario.env.
Proof. intros url sha w f [= <-]. set_solver. Qed.

Lemma scenario_checkout_keeps_cwd : checkout_keeps_cwd Scenario.env.
Proof. intros sha w f [= <-] H. set_solver. Qed.

Lemma fetch_at_most_once_witness :
  let cfg := Scenario.config [Scenario.override_x] in
  let st := init Scenario.fetched_world in
  (let st' := (Repository.repeat_call 3 (Repository.create Scenario.env cfg)
                 st).2 in
   (clones st' ≤ S (clones st))%nat ∧ (checkouts st' ≤ S (checkouts st))%nat) ∧
  (let st' := (Repository.repeat_call 3
                 (Repository.require_created Scenario.env cfg) st).2 in
   (clones st' ≤ S (clones st))%nat ∧ (checkouts st' ≤ S (checkouts st))%nat) ∧
  (__created st = false →
   checkout_dir Scenario.env cfg ∈ fs (world st) →
   ∃ st', Repository.require_created Scenario.env cfg st = (Ok tt, st') ∧
          __created st' = true ∧ world st' = world st ∧
          clones st' = clones st ∧ checkouts st' = checkouts st).
Proof.
  apply (fetch_at_most_once Scenario.env
           (Scenario.config [Scenario.override_x]) 3
           (init Scenario.fetched_world)
           scenario_clone_creates_target scenario_checkout_keeps_cwd).
  vm_compute. lia.
Defined.

(** Three calls of [create] on a repository that was never fetched: one
    [git clone], one [git checkout]. *)
Example three_creates_one_fetch :
  let st' := (Repository.repeat_call 3
                (Repository.create Scenario.env
                   (Scenario.config [Scenario.override_x]))
                (init Scenario.empty_world)).2 in
  clones st' = 1%nat ∧ checkouts st' = 1%nat.
Proof. vm_compute. by split. Qed.

(** With the checkout directory on disk and no flag set, [create] itself
    calls neither [git clone] nor [git checkout], and returns with the
    [__created] flag still unset. *)
Lemma create_leaves_flag_unset :
  let cfg := Scenario.config [Scenario.override_x] in
  let st := init Scenario.fetched_world in
  checkout_dir Scenario.env cfg ∈ fs (world st) ∧
  __created st = false ∧
  ∃ st', Repository.create Scenario.env cfg st = (Ok tt, st') ∧
         clones st' = 0%nat ∧ checkouts st' = 0%nat ∧
         __created st' = false.
Proof.
  split_and!; [by vm_compute; set_solver | done |].
  eexists. split_and!; vm_compute; reflexivity.
Qed.

Lemma create_failure_leaves_no_checkout_witness :
  let cfg := Scenario.config [Scenario.override_x] in
  ∃ st',
    Repository.create Scenario.env_bad_checkout cfg (init Scenario.empty_world)
      = (Raise (ExternalError "bad ref"), st') ∧
    checkout_dir Scenario.env_bad_checkout cfg ∉ fs (world st').
Proof.
  apply (proj2 (create_failure_leaves_no_checkout Scenario.env_bad_checkout
                  (Scenario.config [Scenario.override_x])
                  (init Scenario.empty_world) ltac:(vm_compute; lia))
           {[ ["ws"; "abc123"] ]} (ExternalError "bad ref")
           {[ ["ws"; "abc123"; ".git"]; ["ws"; "abc123"] ]}).
  - by vm_compute.
  - vm_compute. reflexivity.
  - by vm_compute.
  - vm_compute. reflexivity.
Defined.

(** The failed fetch of the example: the file written by [git checkout]
    and the cloned directory are gone. *)
Example failed_checkout_run :
  let out := Repository.create Scenario.env_bad_checkout
               (Scenario.config [Scenario.override_x])
               (init Scenario.empty_world) in
  out.1 = Raise (ExternalError "bad ref") ∧
  elements (fs (world out.2)) = [] ∧
  trace (world out.2) =
    [EvCheckout "abc123"; EvClone "git@example:hooks" "abc123";
     EvLog "This may take a few minutes..." "";
     EvLog "Once installed this environment will be reused." "";
     EvLog "Installing environment for {0}." "git@example:hooks"].
Proof. vm_compute. repeat split. Qed.

(** ** Installing *)

Section install_facts.
Context (env : Env) (repo_config : Config).
#[local] Abbreviation install_one := (Repository.install_one env).
#[local] Abbreviation install_loop := (Repository.install_loop env).

Lemma install_loop_app rr (l1 l2 : list string) st :
  install_loop rr (l1 ++ l2) st =
    (install_loop rr l1 ;;; install_loop rr l2) st.
Proof.
  revert st. induction l1 as [|name l1 IH]; intros st; [done|].
  simpl. unfold bind.
  destruct (install_one rr name st) as [[[]|e] st1]; [|done].
  rewrite IH. done.
Qed.

(** The turn of [name] calls its backend once when [needs_install]
    holds, and not at all otherwise. *)
Lemma install_one_self rr name st :
  installs_of name (install_one rr name st).2 =
    (installs_of name st + if needs_install env rr name st then 1 else 0)%nat.
Proof.
  unfold Repository.install_one, needs_install, dict_getitem. simpl.
  unfold bind at 1, lift at 1.
  destruct (languages env !! name) as [language|]; simpl; [|lia].
  destruct (ENVIRONMENT_DIR language) as [d|]; simpl; [|lia].
  unfold bind, runner_exists, path_exists. simpl.
  case_bool_decide; simpl; [lia|].
  unfold call. destruct (install_environment language rr _) as [r f]. simpl.
  unfold installs_of, count_ev. simpl.
  rewrite bool_decide_eq_true_2 by done. simpl. lia.
Qed.

(** The turns of the other languages do not call the backend of
    [name]. *)
Lemma install_loop_others rr name names st :
  name ∉ names →
  installs_of name (install_loop rr names st).2 = installs_of name st.
Proof.
  intros Hn.
  apply (inv_install_loop (same_count_frame (is_install_of name))).
  intros other Hin. simpl. apply negb_true_iff, bool_decide_eq_false.
  by intros ->.
Qed.

Lemma set_iter_NoDup names : NoDup (set_iter env names).
Proof. rewrite (set_iter_perm env names). apply NoDup_elements. Qed.

Lemma install_loop_turn rr pre name post st st_turn :
  NoDup (pre ++ name :: post) →
  install_loop rr pre st = (Ok tt, st_turn) →
  installs_of name (install_loop rr (pre ++ name :: post) st).2 =
    (installs_of name st
     + if needs_install env rr name st_turn then 1 else 0)%nat.
Proof.
  intros Hnd Hpre.
  apply NoDup_app in Hnd as (_ & Hpre_n & [Hpost_n _]%NoDup_cons).
  assert (name ∉ pre) as Hn by (intros H; apply (Hpre_n name H); left).
  rewrite install_loop_app, (bind_ok _ _ _ _ _ Hpre).
  pose proof (install_loop_others rr name pre st Hn) as Hc.
  rewrite Hpre in Hc. simpl in Hc. rewrite <- Hc.
  rewrite <- install_one_self. simpl. unfold bind.
  destruct (install_one rr name st_turn) as [[[]|e] st1]; simpl; [|done].
  by apply install_loop_others.
Qed.

(** Fetching and computing [languages] call no backend. *)
Lemma setup_no_install (p : event → bool) st :
  (∀ e, setup_event e = true → p e = false) →
  count_ev p (trace (world (Repository.require_created env repo_config st).2))
    = count_ev p (trace (world st)) ∧
  count_ev p (trace (world (Repository.languages_of env repo_config st).2))
    = count_ev p (trace (world st)) ∧
  count_ev p (trace (world (Repository.hooks env repo_config st).2))
    = count_ev p (trace (world st)).
Proof.
  intros Hp.
  assert (∀ e, setup_event e = true → negb (p e) = true) as HP
    by (intros e He; by rewrite (Hp e He)).
  split_and!.
  - apply (inv_require_created (same_count_frame p) env repo_config HP).
  - apply (inv_languages_of (same_count_frame p) env repo_config HP
             (same_count_hooks p) (same_count_languages p)).
  - apply (inv_hooks (same_count_frame p) env repo_config HP
             (same_count_hooks p)).
Qed.

Lemma install_keeps_installed r st :
  __installed (Repository.install env repo_config r st).2 = __installed st.
Proof.
  assert (frame (λ _, true) (same __installed)) as HF
    by (by apply same_frame).
  by apply (inv_install HF env repo_config).
Qed.

(** C5: in [install], the backend of a language of the [languages] set
    is not asked to install when, at the turn of that language, it
    declares no [ENVIRONMENT_DIR] or its environment directory exists
    below the repository's runner; otherwise it is asked exactly once. *)
Theorem install_calls_each_backend_once r st st1 names st2 pre name post
    st_turn :
  Repository.require_created env repo_config st = (Ok tt, st1) →
  Repository.languages_of env repo_config st1 = (Ok names, st2) →
  set_iter env names = pre ++ name :: post →
  install_loop (Repository.get_cmd_runner repo_config r) pre st2
    = (Ok tt, st_turn) →
  installs_of name (Repository.install env repo_config r st).2 =
    (installs_of name st
     + if needs_install env (Repository.get_cmd_runner repo_config r)
            name st_turn
       then 1 else 0)%nat.
Proof.
  intros Hc Hl Hiter Hpre. unfold Repository.install.
  rewrite (bind_ok _ _ _ _ _ Hc), (bind_ok _ _ _ _ _ Hl), Hiter.
  rewrite (install_loop_turn _ pre name post st2 st_turn); [|by rewrite <- Hiter; apply set_iter_NoDup|done].
  f_equal.
  assert (∀ e, setup_event e = true → is_install_of name e = false) as Hp
    by (by intros []).
  destruct (setup_no_install (is_install_of name) st Hp) as (H1 & _ & _).
  destruct (setup_no_install (is_install_of name) st1 Hp) as (_ & H2 & _).
  rewrite Hc in H1. rewrite Hl in H2. simpl in *.
  unfold installs_of. congruence.
Qed.

(** A backend that fails at its turn ends the loop with its error. *)
Lemma install_loop_failure rr pre name post st st_turn language dir e f :
  install_loop rr pre st = (Ok tt, st_turn) →
  languages env !! name = Some language →
  ENVIRONMENT_DIR language = Some dir →
  rr ++ [dir] ∉ fs (world st_turn) →
  install_environment language rr
    (log_event (EvInstall name rr) (world st_turn)) = (Raise e, f) →
  install_loop rr (pre ++ name :: post) st =
    (Raise e,
     set_world (set_fs f (log_event (EvInstall name rr) (world st_turn)))
       st_turn).
Proof.
  intros Hpre Hl Hd Hout Hfail.
  rewrite install_loop_app, (bind_ok _ _ _ _ _ Hpre).
  cbn [Repository.install_loop]. apply bind_raise.
  unfold Repository.install_one, dict_getitem. simpl.
  unfold bind at 1, lift at 1. rewrite Hl, Hd.
  unfold bind, runner_exists, path_exists.
  rewrite bool_decide_eq_false_2 by done.
  unfold call. by rewrite Hfail.
Qed.

(** C6: [require_installed] sets the [__installed] flag only when
    [install] returns; when [install] raises -- as it does when the
    [install_environment] of a backend fails at its turn of the loop --
    the error goes through, the flag is still unset, and the next
    [require_installed] runs [install] again. *)
Theorem installed_flag_only_after_success r st :
  __installed st = false →
  (∀ st', Repository.install env repo_config r st = (Ok tt, st') →
     Repository.require_installed env repo_config r st
       = (Ok tt, set_installed true st')) ∧
  (∀ e st', Repository.install env repo_config r st = (Raise e, st') →
     Repository.require_installed env repo_config r st = (Raise e, st') ∧
     __installed st' = false ∧
     Repository.require_installed env repo_config r st' =
       (Repository.install env repo_config r ;;;
        λ s, (Ok tt, set_installed true s)) st') ∧
  (∀ st1 names st2 pre name post st_turn language dir e f,
     let rr := Repository.get_cmd_runner repo_config r in
     Repository.require_created env repo_config st = (Ok tt, st1) →
     Repository.languages_of env repo_config st1 = (Ok names, st2) →
     set_iter env names = pre ++ name :: post →
     install_loop rr pre st2 = (Ok tt, st_turn) →
     languages env !! name = Some language →
     ENVIRONMENT_DIR language = Some dir →
     rr ++ [dir] ∉ fs (world st_turn) →
     install_environment language rr
       (log_event (EvInstall name rr) (world st_turn)) = (Raise e, f) →
     ∃ st', Repository.install env repo_config r st = (Raise e, st') ∧
            Repository.require_installed env repo_config r st
              = (Raise e, st') ∧
            __installed st' = false).
Proof.
  intros Hf.
  assert (∀ e st', Repository.install env repo_config r st = (Raise e, st') →
            Repository.require_installed env repo_config r st = (Raise e, st') ∧
            __installed st' = false) as Hraise.
  { intros e st' H. unfold Repository.require_installed. rewrite Hf.
    rewrite (bind_raise _ _ _ _ _ H). split; [done|].
    pose proof (install_keeps_installed r st) as Hk.
    rewrite H in Hk. simpl in Hk. congruence. }
  split_and!.
  - intros st' H. unfold Repository.require_installed. rewrite Hf.
    by rewrite (bind_ok _ _ _ _ _ H).
  - intros e st' H. destruct (Hraise e st' H) as [H1 H2].
    split_and!; [done..|].
    unfold Repository.require_installed at 1. by rewrite H2.
  - intros st1 names st2 pre name post st_turn language dir e f rr
      Hc Hl Hiter Hpre Hreg Hdir Hout Hfail.
    eexists. split.
    + unfold Repository.install.
      rewrite (bind_ok _ _ _ _ _ Hc), (bind_ok _ _ _ _ _ Hl), Hiter.
      by apply (install_loop_failure rr pre name post st2 st_turn language
                  dir e f).
    + apply Hraise. unfold Repository.install.
      rewrite (bind_ok _ _ _ _ _ Hc), (bind_ok _ _ _ _ _ Hl), Hiter.
      by apply (install_loop_failure rr pre name post st2 st_turn language
                  dir e f).
Qed.
End install_facts.

(** ** Running a hook *)

Section run_facts.
Context (env : Env) (repo_config : Config).
#[local] Abbreviation dir := (checkout_dir env repo_config).
#[local] Abbreviation require_installed :=
  (Repository.require_installed env repo_config).
#[local] Abbreviation hooks := (Repository.hooks env repo_config).
#[local] Abbreviation run_hook := (Repository.run_hook env repo_config).

Lemma require_installed_no_run r st :
  runs (require_installed r st).2 = runs st.
Proof.
  unfold Repository.require_installed.
  destruct (__installed st); [done|].
  assert (∀ e, setup_event e = true → negb (is_run e) = true) as HP
    by (by intros []).
  pose proof (inv_install (same_count_frame is_run) env repo_config HP r
                (same_count_hooks is_run) (same_count_languages is_run)
                (λ _ _, eq_refl) st) as H.
  unfold bind. by destruct (Repository.install _ _ r st) as [[[]|e] st'].
Qed.

Lemma hooks_no_run st : runs (hooks st).2 = runs st.
Proof.
  assert (∀ e, setup_event e = true → is_run e = false) as Hp
    by (by intros []).
  by destruct (setup_no_install env repo_config is_run st Hp) as (_ & _ & H).
Qed.

(** C7: for an id of the [hooks] mapping, [run_hook] calls the backend
    registered under the language of the effective hook, once, with the
    repository's runner, the effective hook and [file_args], and
    returns what the backend returns -- an exit status other than zero
    included. *)
Theorem run_hook_dispatches r hook_id file_args st st1 od st2 hook name
    language :
  require_installed r st = (Ok tt, st1) →
  hooks st1 = (Ok od, st2) →
  od_lookup od hook_id = Some hook →
  hook !! "language" = Some (VStr name) →
  languages env !! name = Some language →
  let rr := Repository.get_cmd_runner repo_config r in
  let w := log_event (EvRun (VStr name) rr hook file_args) (world st2) in
  let out := lang_run_hook language rr hook file_args w in
  run_hook r hook_id file_args st = (out.1, set_world (set_fs out.2 w) st2) ∧
  runs (run_hook r hook_id file_args st).2 = S (runs st).
Proof.
  intros Hi Hh Hl Hn Hb rr w out.
  assert (run_hook r hook_id file_args st
          = (out.1, set_world (set_fs out.2 w) st2)) as Hrun.
  { unfold Repository.run_hook.
    rewrite (bind_ok _ _ _ _ _ Hi), (bind_ok _ _ _ _ _ Hh).
    unfold bind at 1, lift at 1, od_getitem. rewrite Hl.
    unfold bind at 1, lift at 1, getitem. rewrite Hn.
    unfold bind at 1, lift at 1, dict_getitem. simpl. rewrite Hb.
    unfold call. fold rr. fold w. fold out. by destruct out. }
  split; [done|]. rewrite Hrun. simpl.
  pose proof (require_installed_no_run r st) as H1.
  pose proof (hooks_no_run st1) as H2.
  rewrite Hi in H1. rewrite Hh in H2. simpl in *.
  unfold runs, count_ev in *. simpl. congruence.
Qed.

(** C8, as amended: for an id that the [hooks] mapping does not have,
    [run_hook] raises the builtin [KeyError] of the subscript
    [self.hooks[hook_id]] on that id, and runs no hook. *)
Theorem run_hook_missing_id_raises r hook_id file_args st st1 od st2 :
  require_installed r st = (Ok tt, st1) →
  hooks st1 = (Ok od, st2) →
  od_lookup od hook_id = None →
  run_hook r hook_id file_args st = (Raise (KeyError hook_id), st2) ∧
  runs st2 = runs st.
Proof.
  intros Hi Hh Hl. split.
  - unfold Repository.run_hook.
    rewrite (bind_ok _ _ _ _ _ Hi), (bind_ok _ _ _ _ _ Hh).
    unfold bind at 1, lift at 1, od_getitem. by rewrite Hl.
  - pose proof (require_installed_no_run r st) as H1.
    pose proof (hooks_no_run st1) as H2.
    rewrite Hi in H1. rewrite Hh in H2. simpl in *. congruence.
Qed.
End run_facts.

(** ** The side effects that precede a failed lookup *)

Section before_lookup.
Context (env : Env) (repo_config : Config).
#[local] Abbreviation dir := (checkout_dir env repo_config).
#[local] Abbreviation sha := (Repository.sha repo_config).
#[local] Abbreviation create_at := (Repository.create_at env repo_config).

Lemma all_events_allowed (e : event) :
  setup_event e = true → (λ _ : event, true) e = true.
Proof. done. Qed.

(** Without a checkout directory, [create] runs [git clone]. *)
Lemma create_at_absent d st :
  dir ∉ fs (world st) → (clones st < clones (create_at (S d) st).2)%nat.
Proof.
  intros Hout. simpl. unfold in_hooks_workspace, finally.
  unfold bind at 1, local_path at 1. simpl.
  unfold bind at 1, path_exists at 1. simpl.
  rewrite bool_decide_eq_false_2 by done.
  unfold bind at 1, logger_info at 1. simpl.
  unfold bind at 1, logger_info at 1. simpl.
  unfold bind at 1, logger_info at 1. simpl.
  unfold bind at 1, local_path at 1. simpl.
  unfold clean_path_on_failure, on_failure.
  unfold bind at 1, call at 1. simpl.
  destruct (git_clone env _ sha _) as [[[]|e] f] eqn:E; simpl.
  - match goal with |- context [Repository.in_checkout_with _ _ ?c ?b ?s] =>
      pose proof (inv_in_checkout_with grows_frame env repo_config c b
                    (inv_create_at grows_frame env repo_config
                       all_events_allowed d)
                    (inv_call grows_frame (EvCheckout sha)
                       (git_checkout env sha) eq_refl) s) as H;
      destruct (Repository.in_checkout_with _ _ c b s) as [[[]|e] s'] end;
    apply (grows_count is_clone) in H; unfold clones, count_ev in *;
    simpl in *; lia.
  - unfold clones, count_ev. simpl. lia.
Qed.

Lemma require_created_sets_flag st st' :
  Repository.require_created env repo_config st = (Ok tt, st') →
  __created st' = true.
Proof.
  unfold Repository.require_created, Repository.require_created_with.
  destruct (__created st) eqn:Hc; [by intros [= <-]|].
  unfold bind. destruct (Repository.create _ _ st) as [[[]|e] s]; [|done].
  by intros [= <-].
Qed.

(** Without a checkout directory, a [create] that returns has run
    [git checkout]. *)
Lemma create_at_absent_checkout d st st' :
  dir ∉ fs (world st) →
  create_at (S d) st = (Ok tt, st') →
  (checkouts st < checkouts st')%nat.
Proof.
  intros Hout. simpl. unfold in_hooks_workspace at 1, finally.
  unfold bind at 1, local_path at 1. simpl.
  unfold bind at 1, path_exists at 1. simpl.
  rewrite bool_decide_eq_false_2 by done.
  unfold bind at 1, logger_info at 1. simpl.
  unfold bind at 1, logger_info at 1. simpl.
  unfold bind at 1, logger_info at 1. simpl.
  unfold bind at 1, local_path at 1. simpl.
  unfold clean_path_on_failure, on_failure.
  unfold bind at 1, call at 1. simpl.
  destruct (git_clone env _ sha _) as [[[]|e] f] eqn:E; simpl; [|done].
  match goal with |- context [Repository.in_checkout_with _ _ ?c ?b ?s] =>
    destruct (Repository.in_checkout_with env repo_config c b s)
      as [[[]|e] s'] eqn:Hblock end; [|done].
  intros [= <-].
  unfold Repository.in_checkout_with in Hblock.
  apply bind_inv_ok in Hblock as ([] & sa & Hrc & Hco).
  match type of Hrc with ?m ?s = _ =>
    pose proof (inv_require_created_with grows_frame (create_at d)
                  (inv_create_at grows_frame env repo_config
                     all_events_allowed d) s) as Hg end.
  rewrite Hrc in Hg. apply (grows_count is_checkout) in Hg.
  revert Hco. unfold in_hooks_workspace, finally, local_cwd. simpl.
  case_bool_decide; [|done]. unfold finally, call. simpl.
  destruct (git_checkout env sha _) as [r f']. intros [= -> <-].
  unfold checkouts, count_ev in *. simpl in *. lia.
Qed.

(** Every prefix of a loop that returns has returned. *)
Lemma install_loop_prefix rr (pre rest : list string) st st' :
  Repository.install_loop env rr (pre ++ rest) st = (Ok tt, st') →
  ∃ st_turn, Repository.install_loop env rr pre st = (Ok tt, st_turn).
Proof.
  rewrite install_loop_app. intros ([] & st_turn & H & _)%bind_inv_ok.
  by exists st_turn.
Qed.

(** C9: [run_hook] with an id that the [hooks] mapping does not have
    raises its [KeyError] only after [require_installed] has run to its
    end: the state left by the failed call is the one left by the fetch
    and the installation.  Both flags are set; [git clone] and
    [git checkout] have run when the repository was not fetched before;
    and every language of the [languages] set has had its turn in the
    loop of [install], its backend having installed once when its
    environment directory was declared and missing at that turn. *)
Theorem lookup_failure_follows_install r hook_id file_args st st1 od st2 :
  __installed st = false →
  Repository.require_installed env repo_config r st = (Ok tt, st1) →
  Repository.hooks env repo_config st1 = (Ok od, st2) →
  od_lookup od hook_id = None →
  Repository.run_hook env repo_config r hook_id file_args st
    = (Raise (KeyError hook_id), st2) ∧
  (∃ st_i, Repository.install env repo_config r st = (Ok tt, st_i) ∧
           st1 = set_installed true st_i) ∧
  __installed st2 = true ∧ __created st2 = true ∧ st2 ≠ st ∧
  (__created st = false → dir ∉ fs (world st) →
   (clones st < clones st2)%nat ∧ (checkouts st < checkouts st2)%nat) ∧
  (∃ st_c names st_l,
     Repository.require_created env repo_config st = (Ok tt, st_c) ∧
     Repository.languages_of env repo_config st_c = (Ok names, st_l) ∧
     ∀ pre name post,
       set_iter env names = pre ++ name :: post →
       ∃ st_turn,
         Repository.install_loop env (Repository.get_cmd_runner repo_config r)
           pre st_l = (Ok tt, st_turn) ∧
         installs_of name st2 =
           (installs_of name st
            + if needs_install env (Repository.get_cmd_runner repo_config r)
                   name st_turn
              then 1 else 0)%nat).
Proof.
  intros Hf Hi Hh Hl.
  assert (frame (λ _, true) (same __installed)) as HFi
    by (by apply same_frame).
  (* the failed call ends where the installation and [hooks] end *)
  assert (Repository.run_hook env repo_config r hook_id file_args st
          = (Raise (KeyError hook_id), st2)) as Hrun.
  { unfold Repository.run_hook.
    rewrite (bind_ok _ _ _ _ _ Hi), (bind_ok _ _ _ _ _ Hh).
    unfold bind at 1, lift at 1, od_getitem. by rewrite Hl. }
  (* [require_installed] went through [install] *)
  assert (∃ st_i, Repository.install env repo_config r st = (Ok tt, st_i) ∧
                  st1 = set_installed true st_i) as (st_i & Hinst & ->).
  { revert Hi. unfold Repository.require_installed. rewrite Hf.
    intros ([] & st_i & H1 & [= <-])%bind_inv_ok. by exists st_i. }
  (* [install] starts with [require_created] *)
  pose proof Hinst as Hinst'. unfold Repository.install in Hinst'.
  apply bind_inv_ok in Hinst' as ([] & sa & Hrc & Hrest).
  pose proof (require_created_sets_flag _ _ Hrc) as Hca.
  assert (created_stays sa st_i) as Hcs.
  { pose proof (inv_bind created_stays_frame
                  (Repository.languages_of env repo_config)
                  (λ names, Repository.install_loop env
                     (Repository.get_cmd_runner repo_config r)
                     (set_iter env names))
                  (inv_languages_of created_stays_frame env repo_config
                     all_events_allowed (λ _ _ H, H) (λ _ _ H, H))
                  (λ names, inv_install_loop created_stays_frame env _ _
                     (λ _ _, eq_refl)) sa) as H.
    by rewrite Hrest in H. }
  assert (grows sa st_i) as Hgs.
  { pose proof (inv_bind grows_frame
                  (Repository.languages_of env repo_config)
                  (λ names, Repository.install_loop env
                     (Repository.get_cmd_runner repo_config r)
                     (set_iter env names))
                  (inv_languages_of grows_frame env repo_config
                     all_events_allowed
                     (λ _ _, reflexivity _) (λ _ _, reflexivity _))
                  (λ names, inv_install_loop grows_frame env _ _
                     (λ _ _, eq_refl)) sa) as H.
    by rewrite Hrest in H. }
  pose proof (inv_hooks HFi env repo_config all_events_allowed
                (λ _ _, eq_refl) (set_installed true st_i)) as Hi2.
  pose proof (inv_hooks created_stays_frame env repo_config
                all_events_allowed (λ _ _ H, H) (set_installed true st_i))
    as Hc2.
  pose proof (inv_hooks grows_frame env repo_config all_events_allowed
                (λ _ _, reflexivity _) (set_installed true st_i)) as Hg2.
  rewrite Hh in Hi2, Hc2, Hg2. simpl in Hi2, Hc2, Hg2.
  assert (__installed st2 = true) as Hinstalled by done.
  split_and!; [done|by exists st_i|done|by apply Hc2, Hcs| | |].
  - intros ->. congruence.
  - intros Hc Hout.
    rewrite (require_created_unset env repo_config st Hc) in Hrc.
    unfold Repository.create in Hrc.
    destruct (recursion_limit env) as [|d]; [done|].
    pose proof (create_at_absent d st Hout) as Hlt.
    destruct (create_at (S d) st) as [[[]|e] sc] eqn:Hcreate; [|done].
    pose proof (create_at_absent_checkout d st sc Hout Hcreate) as Hlt2.
    injection Hrc as <-. simpl in Hlt.
    pose proof (grows_count is_clone _ _ Hgs) as Hg3.
    pose proof (grows_count is_clone _ _ Hg2) as Hg4.
    pose proof (grows_count is_checkout _ _ Hgs) as Hg5.
    pose proof (grows_count is_checkout _ _ Hg2) as Hg6.
    unfold clones, checkouts in *. simpl in *. lia.
  - (* the loop of [install] has given every language its turn *)
    apply bind_inv_ok in Hrest as (names & sl & Hlang & Hloop).
    exists sa, names, sl. split_and!; [done..|].
    intros pre name post Hiter. rewrite Hiter in Hloop.
    destruct (install_loop_prefix _ _ _ _ _ Hloop) as [st_turn Hpre].
    exists st_turn. split; [done|].
    assert (NoDup (pre ++ name :: post)) as Hnd
      by (rewrite <- Hiter; apply set_iter_NoDup).
    pose proof (install_loop_turn env _ pre name post sl st_turn Hnd Hpre)
      as Hturn.
    rewrite Hloop in Hturn. simpl in Hturn.
    assert (∀ e, setup_event e = true → is_install_of name e = false) as Hp
      by (by intros []).
    destruct (setup_no_install env repo_config (is_install_of name) st Hp)
      as (H1 & _ & _).
    destruct (setup_no_install env repo_config (is_install_of name) sa Hp)
      as (_ & H2 & _).
    destruct (setup_no_install env repo_config (is_install_of name)
                (set_installed true st_i) Hp) as (_ & _ & H3).
    rewrite Hrc in H1. rewrite Hlang in H2. rewrite Hh in H3.
    unfold installs_of in *. simpl in *. lia.
Qed.
End before_lookup.

(** ** The theorems on the concrete repository *)

Lemma install_calls_each_backend_once_witness :
  let cfg := Scenario.config [Scenario.override_x; Scenario.override_lint] in
  let st := init Scenario.empty_world in
  let rr := Repository.get_cmd_runner cfg Scenario.runner in
  let st1 := (Repository.require_created Scenario.env cfg st).2 in
  let st2 := (Repository.languages_of Scenario.env cfg st1).2 in
  let st_turn := (Repository.install_loop Scenario.env rr ["script"] st2).2 in
  installs_of "python"
    (Repository.install Scenario.env cfg Scenario.runner st).2 =
    (installs_of "python" st
     + if needs_install Scenario.env rr "python" st_turn then 1 else 0)%nat.
Proof.
  intros cfg st rr st1 st2 st_turn.
  apply (install_calls_each_backend_once Scenario.env cfg Scenario.runner st
           st1 {[ "python"; "script" ]} st2 ["script"] "python" [] st_turn);
    vm_compute; reflexivity.
Defined.

Lemma installed_flag_only_after_success_witness :
  let cfg := Scenario.config [Scenario.override_x; Scenario.override_gem] in
  let st := init Scenario.empty_world in
  ∃ st', Repository.install Scenario.env cfg Scenario.runner st
           = (Raise (ExternalError "gem"), st') ∧
         Repository.require_installed Scenario.env cfg Scenario.runner st
           = (Raise (ExternalError "gem"), st') ∧
         __installed st' = false.
Proof.
  intros cfg st.
  pose (rr := Repository.get_cmd_runner cfg Scenario.runner).
  pose (st1 := (Repository.require_created Scenario.env cfg st).2).
  pose (st2 := (Repository.languages_of Scenario.env cfg st1).2).
  apply (proj2 (proj2 (installed_flag_only_after_success Scenario.env cfg
                         Scenario.runner st eq_refl))
           st1 {[ "python"; "ruby" ]} st2 [] "ruby" ["python"] st2
           Scenario.ruby "rb_env" (ExternalError "gem") (fs (world st2)));
    try (vm_compute; reflexivity).
  by vm_compute.
Defined.

Lemma run_hook_dispatches_witness :
  let cfg := Scenario.config [Scenario.override_x] in
  let st := init Scenario.empty_world in
  let st1 := (Repository.require_installed Scenario.env cfg Scenario.runner
                st).2 in
  let hook := dict_update Scenario.override_x Scenario.entry_x in
  let rr := Repository.get_cmd_runner cfg Scenario.runner in
  let w := log_event (EvRun (VStr "python") rr hook ["a.py"]) (world st1) in
  let out := lang_run_hook Scenario.python rr hook ["a.py"] w in
  Repository.run_hook Scenario.env cfg Scenario.runner "x" ["a.py"] st
    = (out.1, set_world (set_fs out.2 w) st1) ∧
  runs (Repository.run_hook Scenario.env cfg Scenario.runner "x" ["a.py"]
          st).2 = S (runs st).
Proof.
  intros cfg st st1 hook rr w out.
  apply (run_hook_dispatches Scenario.env cfg Scenario.runner "x" ["a.py"] st
           st1 [("x", hook)] st1 hook "python" Scenario.python);
    vm_compute; reflexivity.
Defined.

Lemma run_hook_missing_id_raises_witness :
  let cfg := Scenario.config [Scenario.override_x] in
  let st := init Scenario.empty_world in
  let st1 := (Repository.require_installed Scenario.env cfg Scenario.runner
                st).2 in
  Repository.run_hook Scenario.env cfg Scenario.runner "y" ["a.py"] st
    = (Raise (KeyError "y"), st1) ∧
  runs st1 = runs st.
Proof.
  intros cfg st st1.
  apply (run_hook_missing_id_raises Scenario.env cfg Scenario.runner "y" ["a.py"] st
           st1 [("x", dict_update Scenario.override_x Scenario.entry_x)] st1);
    vm_compute; reflexivity.
Defined.

Lemma lookup_failure_follows_install_witness :
  let cfg := Scenario.config [Scenario.override_x] in
  let st := init Scenario.empty_world in
  let rr := Repository.get_cmd_runner cfg Scenario.runner in
  let st1 := (Repository.require_installed Scenario.env cfg Scenario.runner
                st).2 in
  (installs_of "python" st = 0%nat ∧ installs_of "python" st1 = 1%nat) ∧
  Repository.run_hook Scenario.env cfg Scenario.runner "y" ["a.py"] st
    = (Raise (KeyError "y"), st1) ∧
  (∃ st_i, Repository.install Scenario.env cfg Scenario.runner st
             = (Ok tt, st_i) ∧ st1 = set_installed true st_i) ∧
  __installed st1 = true ∧ __created st1 = true ∧ st1 ≠ st ∧
  (__created st = false → checkout_dir Scenario.env cfg ∉ fs (world st) →
   (clones st < clones st1)%nat ∧ (checkouts st < checkouts st1)%nat) ∧
  (∃ st_c names st_l,
     Repository.require_created Scenario.env cfg st = (Ok tt, st_c) ∧
     Repository.languages_of Scenario.env cfg st_c = (Ok names, st_l) ∧
     ∀ pre name post,
       set_iter Scenario.env names = pre ++ name :: post →
       ∃ st_turn,
         Repository.install_loop Scenario.env rr pre st_l = (Ok tt, st_turn) ∧
         installs_of name st1 =
           (installs_of name st
            + if needs_install Scenario.env rr name st_turn then 1 else 0)%nat).
Proof.
  intros cfg st rr st1. split; [by vm_compute|].
  apply (lookup_failure_follows_install Scenario.env cfg Scenario.runner
           "y" ["a.py"] st st1
           [("x", dict_update Scenario.override_x Scenario.entry_x)] st1);
    vm_compute; reflexivity.
Defined.

(** The error of an id that the [hooks] mapping lacks is the [KeyError]
    that the subscript [self.hooks['y']] raises, gone through [run_hook]
    as it is, and not a not-found error of its own. *)
Lemma unknown_hook_id_raises_key_error :
  (Repository.run_hook Scenario.env (Scenario.config [Scenario.override_x])
     Scenario.runner "y" ["a.py"] (init Scenario.empty_world)).1
    = Raise (KeyError "y") ∧
  od_getitem [("x", dict_update Scenario.override_x Scenario.entry_x)] "y"
    = Raise (KeyError "y").
Proof. split; vm_compute; reflexivity. Qed.

(** The run of the example: one fetch, one installation, then the
    [KeyError]. *)
Example failed_lookup_trace :
  trace (world (Repository.run_hook Scenario.env
                  (Scenario.config [Scenario.override_x]) Scenario.runner
                  "y" ["a.py"] (init Scenario.empty_world)).2) =
    [EvInstall "python" ["ws"; "abc123"]; EvLoadManifest "hooks.yaml";
     EvCheckout "abc123"; EvClone "git@example:hooks" "abc123";
     EvLog "This may take a few minutes..." "";
     EvLog "Once installed this environment will be reused." "";
     EvLog "Installing environment for {0}." "git@example:hooks"].
Proof. vm_compute. reflexivity. Qed.

(** A failed installation leaves the flag unset; the backends installed
    before the failure are skipped by the next attempt. *)
Example install_retry_skips_installed :
  let cfg := Scenario.config [Scenario.override_x; Scenario.override_gem] in
  let first := Repository.require_installed Scenario.env cfg Scenario.runner
                 (init Scenario.empty_world) in
  let second := Repository.require_installed Scenario.env cfg Scenario.runner
                  first.2 in
  first.1 = Raise (ExternalError "gem") ∧
  __installed first.2 = false ∧
  second.1 = Raise (ExternalError "gem") ∧
  installs_of "ruby" first.2 = 1%nat ∧ installs_of "ruby" second.2 = 2%nat ∧
  installs_of "python" first.2 = installs_of "python" second.2 ∧
  clones second.2 = 1%nat.
Proof. vm_compute. repeat split. Qed.

(** * Further properties of [repository.py] *)

(** ** The manifest *)

Lemma dict_of_hooks_sound hs acc m :
  dict_of_hooks hs acc = Ok m →
  (∀ i e, acc !! i = Some e → has_id i e) →
  ∀ i e, m !! i = Some e → has_id i e ∧ (e ∈ hs ∨ acc !! i = Some e).
Proof.
  revert acc. induction hs as [|hook rest IH]; intros acc; simpl.
  - intros [= ->] Hacc i e H. split; [by apply Hacc | by right].
  - destruct (getitem hook "id") as [[k|l]|] eqn:Hk; [simpl|done..].
    intros H Hacc i e Hm.
    assert (has_id k hook) as Hid.
    { unfold getitem in Hk. unfold has_id.
      destruct (hook !! "id"); by simplify_eq. }
    destruct (IH _ H) with (i := i) (e := e) as [H1 H2]; [|done|].
    + intros j e'. rewrite lookup_insert. case_decide; [|by apply Hacc].
      intros [= <-]. by subst.
    + split; [done|]. destruct H2 as [H2|H2]; [left; by right|].
      revert H2. rewrite lookup_insert. case_decide; [|by right].
      intros [= <-]. left. left.
Qed.

Lemma dict_of_hooks_complete hs acc m :
  dict_of_hooks hs acc = Ok m →
  (∀ i, is_Some (acc !! i) → is_Some (m !! i)) ∧
  (∀ e, e ∈ hs → ∃ i, has_id i e ∧ is_Some (m !! i)).
Proof.
  revert acc. induction hs as [|hook rest IH]; intros acc; simpl.
  - intros [= ->]. split; [done|]. by intros e ?%elem_of_nil.
  - destruct (getitem hook "id") as [[k|l]|] eqn:Hk; [simpl|done..].
    intros H. destruct (IH _ H) as [Hacc Hrest].
    assert (has_id k hook) as Hid.
    { unfold getitem in Hk. unfold has_id.
      destruct (hook !! "id"); by simplify_eq. }
    split.
    + intros i Hi. apply Hacc. rewrite lookup_insert. by case_decide.
    + intros e [->|Hin]%elem_of_cons; [|by apply Hrest].
      exists k. split; [done|]. apply Hacc. by rewrite lookup_insert_eq.
Qed.

Section manifest_facts.
Context (env : Env) (repo_config : Config).
#[local] Abbreviation dir := (checkout_dir env repo_config).
#[local] Abbreviation manifest := (Repository.manifest env repo_config).

(** The body of [in_checkout] runs inside the checkout directory. *)
Lemma in_checkout_with_ok {A} (create : M unit) (body : M A) st a st' :
  Repository.in_checkout_with env repo_config create body st = (Ok a, st') →
  ∃ s s', cwd (world s) = dir ∧ body s = (Ok a, s').
Proof.
  unfold Repository.in_checkout_with.
  intros ([] & s0 & _ & H)%bind_inv_ok. revert H.
  unfold in_hooks_workspace, finally, local_cwd. simpl.
  case_bool_decide; [|done]. unfold finally.
  destruct (body _) as [r s1] eqn:E. intros [= -> <-].
  eexists _, s1. split; [|exact E]. done.
Qed.

(** X1: the first access to [manifest] calls [load_manifest] with the
    checkout directory as working directory, and the mapping it returns
    holds each entry of the loaded file under the entry's own id: every
    value of the mapping is a loaded entry with that key as its id, and
    every loaded entry has its id among the keys. *)
Theorem manifest_keyed_by_entry_id st m st1 :
  manifest_slot st = None →
  manifest st = (Ok m, st1) →
  ∃ entries w f,
    load_manifest env (MANIFEST_FILE env) w = (Ok entries, f) ∧
    cwd w = dir ∧
    (∀ i e, m !! i = Some e → has_id i e ∧ e ∈ entries) ∧
    (∀ e, e ∈ entries → ∃ i, has_id i e ∧ is_Some (m !! i)).
Proof.
  intros Hs. unfold Repository.manifest, cached_property. rewrite Hs.
  destruct (Repository.in_checkout _ _ _ st) as [[m'|e] s] eqn:E; [|done].
  intros [= -> <-].
  apply in_checkout_with_ok in E as (s0 & s' & Hcwd & Hbody).
  apply bind_inv_ok in Hbody as (entries & s1 & Hcall & Hlift).
  unfold lift in Hlift. injection Hlift as Hdict _.
  unfold call in Hcall.
  destruct (load_manifest env _ _) as [r f] eqn:Hload.
  injection Hcall as -> _.
  eexists entries, _, f. split_and!; [exact Hload|done| |].
  - intros i e Hm.
    destruct (dict_of_hooks_sound _ _ _ Hdict) with (i := i) (e := e)
      as [H1 [H2|H2]]; [done|done|done|done].
  - by apply (dict_of_hooks_complete _ _ _ Hdict).
Qed.
End manifest_facts.

Lemma manifest_keyed_by_entry_id_witness :
  ∃ entries w f,
    load_manifest Scenario.env (MANIFEST_FILE Scenario.env) w
      = (Ok entries, f) ∧
    cwd w = checkout_dir Scenario.env (Scenario.config [Scenario.override_x]) ∧
    (∀ i e, Scenario.manifest_map !! i = Some e → has_id i e ∧ e ∈ entries) ∧
    (∀ e, e ∈ entries →
          ∃ i, has_id i e ∧ is_Some (Scenario.manifest_map !! i)).
Proof.
  apply (manifest_keyed_by_entry_id Scenario.env
           (Scenario.config [Scenario.override_x])
           (init Scenario.empty_world) Scenario.manifest_map
           (Scenario.after_manifest [Scenario.override_x]));
    vm_compute; reflexivity.
Defined.

(** ** The effective hooks and their languages *)

Lemma od_setitem_fresh od k v :
  k ∉ od.*1 → od_setitem od k v = od ++ [(k, v)].
Proof.
  induction od as [|[k0 v0] od IH]; csimpl; [done|].
  intros Hn. rewrite decide_False by (intros ->; apply Hn; left).
  rewrite IH; [done|]. intros H. apply Hn. by right.
Qed.

(** With declared ids that are all different, the merge appends one item
    per declared hook, in the order of the declaration. *)
Lemma merge_items_in_order m decl od0 od :
  merge_items m decl od0 = Ok od →
  NoDup (od0.*1 ++ omap id_of decl) →
  ∃ items, od = od0 ++ items ∧
           Forall2 (λ hook item, merged_item m hook = Some item) decl items.
Proof.
  revert od0. induction decl as [|hook rest IH]; intros od0; simpl.
  - intros [= ->] _. exists []. by rewrite app_nil_r.
  - unfold merged_item, id_of, getitem, dict_getitem.
    destruct (hook !! "id") as [[k|l]|] eqn:Hk; simpl; [|done..].
    destruct (m !! k) as [entry|] eqn:He; simpl; [|done].
    intros H Hnd.
    assert (k ∉ od0.*1) as Hfresh.
    { apply NoDup_app in Hnd as (_ & Hd & _). intros Hin.
      apply (Hd k Hin). left. }
    rewrite (od_setitem_fresh _ _ _ Hfresh) in H.
    destruct (IH _ H) as (items & -> & Hall).
    { rewrite fmap_app. simpl. rewrite <- app_assoc. exact Hnd. }
    exists ((k, dict_update hook entry) :: items).
    split; [by rewrite <- app_assoc|].
    constructor; [|done]. unfold merged_item, id_of. by rewrite Hk, He.
Qed.

Lemma set_of_languages_spec hs acc s :
  set_of_languages hs acc = Ok s →
  Forall (λ h, ∃ name, h !! "language" = Some (VStr name)) hs ∧
  ∀ name, name ∈ s ↔
          name ∈ acc ∨ ∃ h, h ∈ hs ∧ h !! "language" = Some (VStr name).
Proof.
  revert acc. induction hs as [|hook rest IH]; intros acc; simpl.
  - intros [= ->]. split; [constructor|]. intros name. split; [by left|].
    intros [?|(h & ?%elem_of_nil & _)]; done.
  - unfold getitem.
    destruct (hook !! "language") as [[k|l]|] eqn:Hk; simpl; [|done..].
    intros H. destruct (IH _ H) as [Hall Hiff]. split.
    + constructor; [by exists k | done].
    + intros name. rewrite Hiff, elem_of_union, elem_of_singleton.
      split.
      * intros [[->|?]|(h & Hin & Hl)]; [right|by left|right].
        -- exists hook. split; [left|done].
        -- exists h. split; [by right|done].
      * intros [?|(h & [->|Hin]%elem_of_cons & Hl)].
        -- left. by right.
        -- left. left. congruence.
        -- right. by exists h.
Qed.

Section hooks_facts.
Context (env : Env) (repo_config : Config).
#[local] Abbreviation manifest := (Repository.manifest env repo_config).
#[local] Abbreviation hooks := (Repository.hooks env repo_config).
#[local] Abbreviation languages_of :=
  (Repository.languages_of env repo_config).

Lemma hooks_stores st od st' : hooks st = (Ok od, st') → hooks_slot st' = Some od.
Proof.
  unfold Repository.hooks, cached_property.
  destruct (hooks_slot st) as [v|] eqn:E.
  - by intros [= -> <-].
  - destruct (Repository.hooks_items _ _ _ _ st) as [[v|e] s];
      by intros [= <- <-].
Qed.

Lemma hooks_cached st od : hooks_slot st = Some od → hooks st = (Ok od, st).
Proof. intros H. unfold Repository.hooks, cached_property. by rewrite H. Qed.

Lemma languages_stores st names st' :
  languages_of st = (Ok names, st') → languages_slot st' = Some names.
Proof.
  unfold Repository.languages_of, cached_property.
  destruct (languages_slot st) as [v|] eqn:E.
  - by intros [= -> <-].
  - match goal with |- context [bind ?m ?k st] =>
      destruct (bind m k st) as [[v|e] s] end; by intros [= <- <-].
Qed.

Lemma languages_cached st names :
  languages_slot st = Some names → languages_of st = (Ok names, st).
Proof.
  intros H. unfold Repository.languages_of, cached_property. by rewrite H.
Qed.

(** A first computation of [hooks] that returns is the merge of the
    declared hooks with the manifest. *)
Lemma hooks_ok_merge st m st1 od st2 :
  hooks_slot st = None →
  manifest st = (Ok m, st1) →
  hooks st = (Ok od, st2) →
  merge_items m (cfg_hooks repo_config) [] = Ok od.
Proof.
  intros Hs Hm. unfold Repository.hooks, cached_property. rewrite Hs.
  destruct (cfg_hooks repo_config) as [|hook rest] eqn:Hc.
  - simpl. by intros [= <- _].
  - destruct (getitem hook "id") as [key|e] eqn:Hk.
    + rewrite (hooks_items_run env repo_config hook rest [] st key m st1 Hk Hm).
      destruct (merge_items _ _ _) as [od'|e]; [|done]. by intros [= <- _].
    + simpl. unfold bind at 1, lift at 1. by rewrite Hk.
Qed.

(** X2: when the declared hooks carry ids that are all different, the
    [hooks] mapping lists them in the order of their declaration: its
    items are, one for one, the declared hooks merged with their manifest
    entries. *)
Theorem hooks_in_declaration_order st m st1 od st2 :
  hooks_slot st = None →
  manifest st = (Ok m, st1) →
  hooks st = (Ok od, st2) →
  NoDup (omap id_of (cfg_hooks repo_config)) →
  Forall2 (λ hook item, merged_item m hook = Some item)
    (cfg_hooks repo_config) od.
Proof.
  intros Hs Hm Hh Hnd.
  pose proof (hooks_ok_merge st m st1 od st2 Hs Hm Hh) as Hmerge.
  by destruct (merge_items_in_order m _ [] od Hmerge Hnd) as (items & -> & H).
Qed.

(** X3: the [languages] set holds exactly the values of the [language]
    field of the effective hooks, and a computation that returns has found
    a string under [language] in every one of them. *)
Theorem languages_of_effective_hooks st od st1 names st2 :
  languages_slot st = None →
  hooks st = (Ok od, st1) →
  languages_of st = (Ok names, st2) →
  st2 = set_languages_slot names st1 ∧
  Forall (λ h, ∃ name, h !! "language" = Some (VStr name)) (od_values od) ∧
  ∀ name, name ∈ names ↔
          ∃ h, h ∈ od_values od ∧ h !! "language" = Some (VStr name).
Proof.
  intros Hs Hh. unfold Repository.languages_of, cached_property. rewrite Hs.
  rewrite (bind_ok _ _ _ _ _ Hh). unfold lift.
  destruct (set_of_languages (od_values od) ∅) as [s|e] eqn:E; [|done].
  intros [= -> <-]. destruct (set_of_languages_spec _ _ _ E) as [Hall Hiff].
  split_and!; [done..|]. intros name. rewrite Hiff. split; [|by right].
  by intros [?%not_elem_of_empty|?].
Qed.

(** X4: a declared hook without an [id] key, after hooks that the
    manifest knows, makes [hooks] raise [KeyError('id')]; when it is the
    first declared hook, the error comes before [manifest] is touched, so
    that nothing is fetched and the state is unchanged. *)
Theorem hooks_declared_without_id st pre hook post :
  hooks_slot st = None →
  cfg_hooks repo_config = pre ++ hook :: post →
  hook !! "id" = None →
  (pre = [] → hooks st = (Raise (KeyError "id"), st)) ∧
  (∀ m st1, manifest st = (Ok m, st1) → pre ≠ [] →
            all_matched m pre = true →
            hooks st = (Raise (KeyError "id"), st1)).
Proof.
  intros Hs Hc Hn. split.
  - intros ->. unfold Repository.hooks, cached_property. rewrite Hs, Hc.
    simpl. unfold bind at 1, lift at 1, getitem. by rewrite Hn.
  - intros m st1 Hm Hne Hpre.
    destruct pre as [|p0 pre]; [done|].
    pose proof (all_matched_Forall _ _ Hpre) as Hall.
    pose proof Hall as [(j & Hj & _) _]%Forall_cons.
    rewrite (hooks_run env repo_config st p0 (pre ++ hook :: post) _ m st1
               Hs Hc (has_id_getitem _ _ Hj) Hm).
    assert (∀ l od, Forall (matched m) l →
                    merge_items m (l ++ hook :: post) od
                    = Raise (KeyError "id")) as Hfail.
    { intros l od Hl. revert od.
      induction Hl as [|h0 l (i & Hi & [entry He]) _ IH]; intros od.
      - simpl. unfold getitem. by rewrite Hn.
      - simpl app. rewrite (merge_items_step _ _ _ _ _ _ Hi He). apply IH. }
    specialize (Hfail (p0 :: pre) [] Hall). simpl app in Hfail.
    by rewrite Hfail.
Qed.
End hooks_facts.

Lemma hooks_in_declaration_order_witness :
  let cfg := Scenario.config [Scenario.override_x; Scenario.override_lint] in
  let st := init Scenario.empty_world in
  ∃ od, (Repository.hooks Scenario.env cfg st).1 = Ok od ∧
        Forall2 (λ hook item,
                   merged_item Scenario.manifest_map hook = Some item)
          [Scenario.override_x; Scenario.override_lint] od.
Proof.
  intros cfg st.
  exists [("x", dict_update Scenario.override_x Scenario.entry_x);
          ("lint", dict_update Scenario.override_lint Scenario.entry_lint)].
  split; [vm_compute; reflexivity|].
  apply (hooks_in_declaration_order Scenario.env cfg st Scenario.manifest_map
           (Repository.manifest Scenario.env cfg st).2 _
           (Repository.hooks Scenario.env cfg st).2);
    try (vm_compute; reflexivity).
  apply (bool_decide_unpack _). vm_compute. exact I.
Defined.

Lemma languages_of_effective_hooks_witness :
  let cfg := Scenario.config [Scenario.override_x; Scenario.override_lint] in
  let st := init Scenario.empty_world in
  let od := [("x", dict_update Scenario.override_x Scenario.entry_x);
             ("lint", dict_update Scenario.override_lint Scenario.entry_lint)]
  in
  let names : gset string := {[ "python"; "script" ]} in
  (Repository.languages_of Scenario.env cfg st).2
    = set_languages_slot names (Repository.hooks Scenario.env cfg st).2 ∧
  Forall (λ h, ∃ name, h !! "language" = Some (VStr name)) (od_values od) ∧
  ∀ name, name ∈ names ↔
          ∃ h, h ∈ od_values od ∧ h !! "language" = Some (VStr name).
Proof.
  intros cfg st od names.
  apply (languages_of_effective_hooks Scenario.env cfg st od
           (Repository.hooks Scenario.env cfg st).2 names
           (Repository.languages_of Scenario.env cfg st).2);
    vm_compute; reflexivity.
Defined.

Lemma hooks_declared_without_id_witness :
  let cfg := Scenario.config [Cases.without_id; Scenario.override_x] in
  let st := init Scenario.empty_world in
  Repository.hooks Scenario.env cfg st = (Raise (KeyError "id"), st).
Proof.
  intros cfg st.
  apply (proj1 (hooks_declared_without_id Scenario.env cfg st []
                  Cases.without_id [Scenario.override_x]
                  eq_refl eq_refl ltac:(vm_compute; reflexivity))).
  reflexivity.
Defined.

(** ** The lifecycle flags and the caches *)

Lemma flags_stay_frame : frame (λ _, true) flags_stay.
Proof.
  split; unfold flags_stay; try done.
  split; [by intros ?|]. intros x y z [H1 H2] [H3 H4]. split; auto.
Qed.

Lemma flags_stay_hooks : frame_hooks flags_stay.
Proof. by intros st od. Qed.

Lemma flags_stay_languages : frame_languages flags_stay.
Proof. by intros st s. Qed.

Section lifecycle.
Context (env : Env) (repo_config : Config).
#[local] Abbreviation manifest := (Repository.manifest env repo_config).
#[local] Abbreviation hooks := (Repository.hooks env repo_config).
#[local] Abbreviation languages_of :=
  (Repository.languages_of env repo_config).

Lemma inv_require_installed_flags r :
  inv flags_stay (Repository.require_installed env repo_config r).
Proof.
  intros st. unfold Repository.require_installed.
  destruct (__installed st) eqn:Hi; [done|].
  pose proof (inv_install flags_stay_frame env repo_config all_events_allowed
                r flags_stay_hooks flags_stay_languages (λ _ _, eq_refl) st)
    as [H1 H2].
  unfold bind.
  destruct (Repository.install _ _ r st) as [[[]|e] st']; simpl in *;
    split; auto.
Qed.

(** X5: no method of [Repository] clears a lifecycle flag: whatever
    [create], [manifest], [hooks], [languages], [install],
    [require_installed] or [run_hook] does, and however it ends, a flag
    that was set before is set afterwards. *)
Theorem lifecycle_flags_never_cleared r hook_id file_args st :
  flags_stay st (Repository.create env repo_config st).2 ∧
  flags_stay st (manifest st).2 ∧
  flags_stay st (hooks st).2 ∧
  flags_stay st (languages_of st).2 ∧
  flags_stay st (Repository.install env repo_config r st).2 ∧
  flags_stay st (Repository.require_installed env repo_config r st).2 ∧
  flags_stay st
    (Repository.run_hook env repo_config r hook_id file_args st).2.
Proof.
  split_and!.
  - apply (inv_create flags_stay_frame env repo_config all_events_allowed).
  - apply (inv_manifest flags_stay_frame env repo_config all_events_allowed).
  - apply (inv_hooks flags_stay_frame env repo_config all_events_allowed
             flags_stay_hooks).
  - apply (inv_languages_of flags_stay_frame env repo_config
             all_events_allowed flags_stay_hooks flags_stay_languages).
  - apply (inv_install flags_stay_frame env repo_config all_events_allowed r
             flags_stay_hooks flags_stay_languages (λ _ _, eq_refl)).
  - apply inv_require_installed_flags.
  - unfold Repository.run_hook.
    apply (inv_bind flags_stay_frame); [apply inv_require_installed_flags|].
    intros _.
    apply (inv_bind flags_stay_frame);
      [apply (inv_hooks flags_stay_frame env repo_config all_events_allowed
                flags_stay_hooks)|].
    intros od.
    repeat (apply (inv_bind flags_stay_frame);
            [apply (inv_lift flags_stay_frame)|]; intros ?).
    by apply (inv_call flags_stay_frame).
Qed.
End lifecycle.

(** ** The working directory *)

Section working_directory.
Context (env : Env) (repo_config : Config).

Lemma cwd_bind {A B} (m : M A) (k : A → M B) :
  inv (same cwd_of) m → (∀ a, inv (same cwd_of) (k a)) →
  inv (same cwd_of) (bind m k).
Proof.
  intros Hm Hk st. unfold bind. specialize (Hm st).
  destruct (m st) as [[a|e] st1]; simpl in *; [|done].
  specialize (Hk a st1). unfold same in *. congruence.
Qed.

Lemma cwd_lift {A} (r : Res A) : inv (same cwd_of) (lift r).
Proof. by intros st. Qed.

Lemma cwd_call {A} (e : event) (f : extern A) : inv (same cwd_of) (call e f).
Proof.
  intros st. unfold call.
  by destruct (f (log_event e (world st))) as [r f'].
Qed.

(** Whatever the block does, leaving the workspace context puts the
    working directory back. *)
Lemma cwd_in_hooks_workspace {A} (body : M A) :
  inv (same cwd_of) (in_hooks_workspace env body).
Proof.
  intros st. unfold in_hooks_workspace, finally.
  by destruct (body _) as [r st'].
Qed.

Lemma cwd_cached_property {A} slot store (compute : M A) :
  inv (same cwd_of) compute →
  (∀ st v, cwd_of (store v st) = cwd_of st) →
  inv (same cwd_of) (cached_property slot store compute).
Proof.
  intros Hc Hs st. unfold cached_property.
  destruct (slot st); [done|]. specialize (Hc st).
  destruct (compute st) as [[v|e] st1]; simpl in *; [|done].
  unfold same in *. rewrite Hs. done.
Qed.

Lemma cwd_create_at d :
  inv (same cwd_of) (Repository.create_at env repo_config d).
Proof. destruct d; [done | apply cwd_in_hooks_workspace]. Qed.

Lemma cwd_require_created :
  inv (same cwd_of) (Repository.require_created env repo_config).
Proof.
  intros st. unfold Repository.require_created, Repository.require_created_with.
  destruct (__created st); [done|].
  apply cwd_bind; [apply cwd_create_at | by intros _ s].
Qed.

Lemma cwd_manifest : inv (same cwd_of) (Repository.manifest env repo_config).
Proof.
  apply cwd_cached_property; [|done].
  apply cwd_bind; [apply cwd_require_created|]. intros _.
  apply cwd_in_hooks_workspace.
Qed.

Lemma cwd_hooks_items decl od :
  inv (same cwd_of) (Repository.hooks_items env repo_config decl od).
Proof.
  revert od. induction decl as [|hook rest IH]; intros od; [done|]. simpl.
  apply cwd_bind; [apply cwd_lift|]. intros key.
  apply cwd_bind; [apply cwd_manifest|]. intros m.
  repeat (apply cwd_bind; [apply cwd_lift|]; intros ?).
  apply IH.
Qed.

Lemma cwd_hooks : inv (same cwd_of) (Repository.hooks env repo_config).
Proof. apply cwd_cached_property; [apply cwd_hooks_items | done]. Qed.

Lemma cwd_languages_of :
  inv (same cwd_of) (Repository.languages_of env repo_config).
Proof.
  apply cwd_cached_property; [|done].
  apply cwd_bind; [apply cwd_hooks|]. intros od. apply cwd_lift.
Qed.

Lemma cwd_install_loop rr names :
  inv (same cwd_of) (Repository.install_loop env rr names).
Proof.
  induction names as [|name rest IH]; [done|]. simpl.
  apply cwd_bind; [|by intros _].
  unfold Repository.install_one.
  apply cwd_bind; [apply cwd_lift|]. intros language.
  destruct (ENVIRONMENT_DIR language); [|done].
  apply cwd_bind; [done|]. intros [|]; [done | apply cwd_call].
Qed.

Lemma cwd_install r : inv (same cwd_of) (Repository.install env repo_config r).
Proof.
  unfold Repository.install.
  apply cwd_bind; [apply cwd_require_created|]. intros _.
  apply cwd_bind; [apply cwd_languages_of|]. intros names.
  apply cwd_install_loop.
Qed.

Lemma cwd_require_installed r :
  inv (same cwd_of) (Repository.require_installed env repo_config r).
Proof.
  intros st. unfold Repository.require_installed.
  destruct (__installed st); [done|].
  apply cwd_bind; [apply cwd_install | by intros _ s].
Qed.

(** X7: every method leaves the working directory of the process as it
    found it, whether it returns or raises: the [with] blocks of [create],
    [in_checkout] and [manifest] undo their directory changes on every
    exit path. *)
Theorem working_directory_restored r hook_id file_args st :
  cwd_of (Repository.create env repo_config st).2 = cwd_of st ∧
  cwd_of (Repository.require_created env repo_config st).2 = cwd_of st ∧
  cwd_of (Repository.manifest env repo_config st).2 = cwd_of st ∧
  cwd_of (Repository.hooks env repo_config st).2 = cwd_of st ∧
  cwd_of (Repository.languages_of env repo_config st).2 = cwd_of st ∧
  cwd_of (Repository.install env repo_config r st).2 = cwd_of st ∧
  cwd_of (Repository.require_installed env repo_config r st).2 = cwd_of st ∧
  cwd_of (Repository.run_hook env repo_config r hook_id file_args st).2
    = cwd_of st.
Proof.
  split_and!.
  - apply cwd_create_at.
  - apply cwd_require_created.
  - apply cwd_manifest.
  - apply cwd_hooks.
  - apply cwd_languages_of.
  - apply cwd_install.
  - apply cwd_require_installed.
  - unfold Repository.run_hook.
    apply cwd_bind; [apply cwd_require_installed|]. intros _.
    apply cwd_bind; [apply cwd_hooks|]. intros od.
    repeat (apply cwd_bind; [apply cwd_lift|]; intros ?).
    apply cwd_call.
Qed.
End working_directory.

(** ** A checkout that fails *)

Section failed_checkout.
Context (env : Env) (repo_config : Config).
#[local] Abbreviation dir := (checkout_dir env repo_config).
#[local] Abbreviation sha := (Repository.sha repo_config).
#[local] Abbreviation create_at := (Repository.create_at env repo_config).

(** Entering the checkout sets the [__created] flag before the block
    runs, and nothing clears it. *)
Lemma in_checkout_sets_flag {A} (d : nat) (e : event) (f : extern A)
    (s : State) :
  dir ∈ fs (world s) →
  __created (Repository.in_checkout_with env repo_config (create_at (S d))
               (call e f) s).2 = true.
Proof.
  intros Hin. unfold Repository.in_checkout_with.
  unfold bind at 1, Repository.require_created_with.
  destruct (__created s) eqn:Hc.
  - by apply (inv_in_hooks_workspace created_stays_frame env _
                (inv_local_cwd created_stays_frame sha _
                   (inv_call created_stays_frame e f eq_refl)) s).
  - unfold bind at 1. rewrite (create_at_present env repo_config d s Hin).
    by apply (inv_in_hooks_workspace created_stays_frame env _
                (inv_local_cwd created_stays_frame sha _
                   (inv_call created_stays_frame e f eq_refl))
                (set_created true s)).
Qed.

Lemma create_at_clone_ok_sets_flag d st f1 :
  dir ∉ fs (world st) →
  git_clone env (Repository.repo_url repo_config) sha
    (world_at_clone env repo_config (world st)) = (Ok tt, f1) →
  dir ∈ f1 →
  __created (create_at (S (S d)) st).2 = true.
Proof.
  intros Hout Hclone Hin.
  remember (S d) as d' eqn:Hd. simpl.
  unfold in_hooks_workspace at 1, finally.
  unfold bind at 1, local_path at 1. simpl.
  unfold bind at 1, path_exists at 1. simpl.
  rewrite bool_decide_eq_false_2 by done.
  unfold bind at 1, logger_info at 1. simpl.
  unfold bind at 1, logger_info at 1. simpl.
  unfold bind at 1, logger_info at 1. simpl.
  unfold bind at 1, local_path at 1. simpl.
  unfold clean_path_on_failure, on_failure.
  unfold bind at 1, call at 1. simpl.
  match goal with |- context [git_clone env ?u ?s ?w] =>
    change w with (world_at_clone env repo_config (world st)) end.
  rewrite Hclone. subst d'.
  match goal with |- context [Repository.in_checkout_with _ _ ?c ?b ?s] =>
    pose proof (in_checkout_sets_flag d (EvCheckout sha)
                  (git_checkout env sha) s Hin) as Hflag;
    destruct (Repository.in_checkout_with env repo_config c b s)
      as [[[]|e'] s'] end; done.
Qed.

(** X8: when [git clone] has succeeded and [git checkout] then fails,
    the error leaves [require_created] with the checkout directory
    removed but with the [__created] flag set (by the [require_created]
    that [in_checkout] ran before the checkout).  On the same object a
    later [require_created] therefore does nothing -- no new fetch -- and
    a first access to [manifest] raises [OSError] on the missing
    directory. *)
Theorem failed_checkout_leaves_flag_set st f1 e f2 :
  (1 < recursion_limit env)%nat →
  __created st = false →
  dir ∉ fs (world st) →
  git_clone env (Repository.repo_url repo_config) sha
    (world_at_clone env repo_config (world st)) = (Ok tt, f1) →
  dir ∈ f1 →
  git_checkout env sha (world_at_checkout env repo_config (world st) f1)
    = (Raise e, f2) →
  ∃ st',
    Repository.require_created env repo_config st = (Raise e, st') ∧
    __created st' = true ∧
    (dir ∉ fs (world st')) ∧
    Repository.require_created env repo_config st' = (Ok tt, st') ∧
    (manifest_slot st' = None →
     Repository.manifest env repo_config st' = (Raise (OSError dir), st')).
Proof.
  intros Hlim Hc Hout Hclone Hin Hcheckout.
  rewrite (require_created_unset env repo_config st Hc).
  unfold Repository.create at 1.
  destruct (recursion_limit env) as [|[|d]] eqn:Hrl; [lia..|].
  pose proof (create_at_checkout_failure env repo_config d st f1 e f2 Hout
                Hclone Hin Hcheckout) as Hfail.
  pose proof (create_at_clone_ok_sets_flag d st f1 Hout Hclone Hin) as Hflag.
  destruct (create_at (S (S d)) st) as [r st'] eqn:E. simpl in *. subst r.
  pose proof (create_at_failure env repo_config (S d) st e st' E) as Hgone.
  exists st'. split_and!; [done..| |].
  - by apply require_created_set.
  - intros Hs. unfold Repository.manifest, cached_property. rewrite Hs.
    unfold Repository.in_checkout, Repository.in_checkout_with.
    unfold bind, Repository.require_created_with. rewrite Hflag.
    unfold in_hooks_workspace, finally, local_cwd. simpl.
    rewrite bool_decide_eq_false_2 by done.
    by destruct st' as [? ? ? ? ? [? ? ?]].
Qed.
End failed_checkout.

Lemma failed_checkout_leaves_flag_set_witness :
  let cfg := Scenario.config [Scenario.override_x] in
  ∃ st',
    Repository.require_created Scenario.env_bad_checkout cfg
      (init Scenario.empty_world) = (Raise (ExternalError "bad ref"), st') ∧
    __created st' = true ∧
    (checkout_dir Scenario.env_bad_checkout cfg ∉ fs (world st')) ∧
    Repository.require_created Scenario.env_bad_checkout cfg st'
      = (Ok tt, st') ∧
    (manifest_slot st' = None →
     Repository.manifest Scenario.env_bad_checkout cfg st'
       = (Raise (OSError (checkout_dir Scenario.env_bad_checkout cfg)), st')).
Proof.
  apply (failed_checkout_leaves_flag_set Scenario.env_bad_checkout
           (Scenario.config [Scenario.override_x])
           (init Scenario.empty_world)
           {[ ["ws"; "abc123"] ]} (ExternalError "bad ref")
           {[ ["ws"; "abc123"; ".git"]; ["ws"; "abc123"] ]}).
  - vm_compute. lia.
  - reflexivity.
  - by vm_compute.
  - vm_compute. reflexivity.
  - by vm_compute.
  - vm_compute. reflexivity.
Defined.

(** ** Installing and running, further *)

Section install_more.
Context (env : Env) (repo_config : Config).
#[local] Abbreviation dir := (checkout_dir env repo_config).
#[local] Abbreviation require_created :=
  (Repository.require_created env repo_config).
#[local] Abbreviation languages_of :=
  (Repository.languages_of env repo_config).
#[local] Abbreviation install := (Repository.install env repo_config).
#[local] Abbreviation require_installed :=
  (Repository.require_installed env repo_config).
#[local] Abbreviation run_hook := (Repository.run_hook env repo_config).

(** X9: a successful [require_created] on a repository whose flag was
    not set ends with the flag set and the checkout directory on disk
    ([git] keeping its contract). *)
Theorem require_created_postcondition st st' :
  clone_creates_target env →
  checkout_keeps_cwd env →
  __created st = false →
  require_created st = (Ok tt, st') →
  __created st' = true ∧ dir ∈ fs (world st').
Proof.
  intros Hclone Hcheckout Hc.
  rewrite (require_created_unset env repo_config st Hc).
  pose proof (create_at_once env repo_config Hclone Hcheckout
                (recursion_limit env) st) as Honce.
  fold (Repository.create env repo_config) in Honce.
  destruct (Repository.create env repo_config st) as [[[]|e] s]; [|done].
  intros [= <-]. destruct Honce as (_ & _ & H). split; [done|]. by apply H.
Qed.

(** X10: [install] asks no backend to install a language that no
    effective hook names. *)
Theorem install_only_languages_of_hooks r st st1 names st2 name :
  require_created st = (Ok tt, st1) →
  languages_of st1 = (Ok names, st2) →
  name ∉ names →
  installs_of name (install r st).2 = installs_of name st.
Proof.
  intros Hc Hl Hn. unfold Repository.install.
  rewrite (bind_ok _ _ _ _ _ Hc), (bind_ok _ _ _ _ _ Hl).
  rewrite (install_loop_others env); last first.
  { rewrite list_elem_of_In, (set_iter_perm env names),
      <- list_elem_of_In, elem_of_elements. done. }
  assert (∀ e, setup_event e = true → is_install_of name e = false) as Hp
    by (by intros []).
  destruct (setup_no_install env repo_config (is_install_of name) st Hp)
    as (H1 & _ & _).
  destruct (setup_no_install env repo_config (is_install_of name) st1 Hp)
    as (_ & H2 & _).
  rewrite Hc in H1. rewrite Hl in H2. simpl in *.
  unfold installs_of. congruence.
Qed.

(** X11: a language of the [languages] set without a registered backend
    stops [install] at its turn with a [KeyError] on the language name;
    the error goes through [require_installed], which leaves the
    [__installed] flag unset, and the languages after it in the iteration
    are not looked at. *)
Theorem install_unregistered_language r st st1 names st2 pre name post
    st_turn :
  __installed st = false →
  require_created st = (Ok tt, st1) →
  languages_of st1 = (Ok names, st2) →
  set_iter env names = pre ++ name :: post →
  Repository.install_loop env (Repository.get_cmd_runner repo_config r) pre
    st2 = (Ok tt, st_turn) →
  languages env !! name = None →
  install r st = (Raise (KeyError name), st_turn) ∧
  require_installed r st = (Raise (KeyError name), st_turn) ∧
  __installed st_turn = false.
Proof.
  intros Hf Hc Hl Hiter Hpre Hreg.
  assert (install r st = (Raise (KeyError name), st_turn)) as Hinst.
  { unfold Repository.install.
    rewrite (bind_ok _ _ _ _ _ Hc), (bind_ok _ _ _ _ _ Hl), Hiter.
    rewrite install_loop_app, (bind_ok _ _ _ _ _ Hpre).
    cbn [Repository.install_loop]. apply bind_raise.
    unfold Repository.install_one, dict_getitem. simpl.
    unfold bind, lift. by rewrite Hreg. }
  destruct (installed_flag_only_after_success env repo_config r st Hf)
    as (_ & H & _).
  destruct (H _ _ Hinst) as (H1 & H2 & _). done.
Qed.

Lemma set_iter_empty : set_iter env ∅ = [].
Proof.
  apply Permutation_nil_r. rewrite (set_iter_perm env ∅).
  by rewrite elements_empty.
Qed.

(** X12: with no declared hook, [run_hook] fetches the repository, but
    never reads the manifest and installs nothing: it stores the empty
    [hooks] and [languages], sets the [__installed] flag, and raises
    [KeyError] on the id it was given. *)
Theorem run_hook_without_declared_hooks r hook_id file_args st st1 :
  cfg_hooks repo_config = [] →
  __installed st = false →
  hooks_slot st = None →
  languages_slot st = None →
  require_created st = (Ok tt, st1) →
  run_hook r hook_id file_args st =
    (Raise (KeyError hook_id),
     set_installed true (set_languages_slot ∅ (set_hooks_slot [] st1))).
Proof.
  intros Hdecl Hf Hh Hl Hc.
  assert (hooks_slot st1 = None ∧ languages_slot st1 = None) as [Hh1 Hl1].
  { pose proof (inv_require_created
                  (same_frame hooks_slot (λ _, true)
                     (λ _ _, eq_refl) (λ _, eq_refl) (λ _ _, eq_refl))
                  env repo_config all_events_allowed st) as H1.
    pose proof (inv_require_created
                  (same_frame languages_slot (λ _, true)
                     (λ _ _, eq_refl) (λ _, eq_refl) (λ _ _, eq_refl))
                  env repo_config all_events_allowed st) as H2.
    rewrite Hc in H1, H2. unfold same in *. simpl in *. split; congruence. }
  assert (Repository.hooks env repo_config st1
          = (Ok [], set_hooks_slot [] st1)) as Hhooks.
  { unfold Repository.hooks, cached_property. by rewrite Hh1, Hdecl. }
  assert (languages_of st1
          = (Ok ∅, set_languages_slot ∅ (set_hooks_slot [] st1))) as Hlang.
  { unfold Repository.languages_of, cached_property. rewrite Hl1.
    by rewrite (bind_ok _ _ _ _ _ Hhooks). }
  assert (install r st
          = (Ok tt, set_languages_slot ∅ (set_hooks_slot [] st1))) as Hinst.
  { unfold Repository.install.
    rewrite (bind_ok _ _ _ _ _ Hc), (bind_ok _ _ _ _ _ Hlang).
    by rewrite set_iter_empty. }
  destruct (installed_flag_only_after_success env repo_config r st Hf)
    as (Hok & _).
  unfold Repository.run_hook.
  rewrite (bind_ok _ _ _ _ _ (Hok _ Hinst)).
  by rewrite (bind_ok _ _ _ _ _
                (hooks_cached env repo_config
                   (set_installed true
                      (set_languages_slot ∅ (set_hooks_slot [] st1)))
                   [] eq_refl)).
Qed.

(** Once installed and with [hooks] cached, [run_hook] is the lookup and
    the call of the backend. *)
Lemma run_hook_installed r hook_id file_args st od :
  __installed st = true →
  hooks_slot st = Some od →
  run_hook r hook_id file_args st =
    run_resolved env (Repository.get_cmd_runner repo_config r) od hook_id
      file_args st.
Proof.
  intros Hf Hh.
  assert (require_installed r st = (Ok tt, st)) as Hi.
  { unfold Repository.require_installed. by rewrite Hf. }
  unfold Repository.run_hook. rewrite (bind_ok _ _ _ _ _ Hi).
  by rewrite (bind_ok _ _ _ _ _ (hooks_cached env repo_config st od Hh)).
Qed.

(** The lookup and the call touch neither the flags nor the caches, and
    record at most the run. *)
Lemma run_resolved_effect rr od hook_id file_args st :
  let st' := (run_resolved env rr od hook_id file_args st).2 in
  __installed st' = __installed st ∧ hooks_slot st' = hooks_slot st ∧
  count_ev is_not_run (trace (world st'))
    = count_ev is_not_run (trace (world st)) ∧
  (runs st' ≤ S (runs st))%nat.
Proof.
  cbv zeta.
  destruct (run_resolved env rr od hook_id file_args st) as [res st'] eqn:E.
  simpl. revert E. unfold run_resolved. unfold bind at 1, lift at 1.
  destruct (od_getitem od hook_id) as [hook|];
    [|intros [= _ <-]; split_and!; first [done | lia]].
  unfold bind at 1, lift at 1.
  destruct (getitem hook "language") as [name|];
    [|intros [= _ <-]; split_and!; first [done | lia]].
  unfold bind at 1, lift at 1.
  destruct (dict_getitem (languages env) name) as [language|];
    [|intros [= _ <-]; split_and!; first [done | lia]].
  unfold call. destruct (lang_run_hook language rr hook file_args _) as [r f].
  intros [= _ <-]. unfold runs, count_ev, is_not_run. simpl.
  split_and!; first [done | lia].
Qed.

(** X13: after a [run_hook] that got past the installation and the
    [hooks] property, a further [run_hook] on the same object -- for any
    id and files -- fetches nothing, reads no manifest and installs
    nothing: it records at most the run of the hook. *)
Theorem later_run_hook_only_runs r id1 files1 id2 files2 st st1 od st2 :
  require_installed r st = (Ok tt, st1) →
  Repository.hooks env repo_config st1 = (Ok od, st2) →
  let s1 := (run_hook r id1 files1 st).2 in
  let s2 := (run_hook r id2 files2 s1).2 in
  count_ev is_not_run (trace (world s2))
    = count_ev is_not_run (trace (world s1)) ∧
  (runs s2 ≤ S (runs s1))%nat.
Proof.
  intros Hi Hh s1 s2.
  assert (__installed st1 = true) as Hf1.
  { revert Hi. unfold Repository.require_installed.
    destruct (__installed st) eqn:Hf; [by intros [= <-]|].
    by intros ([] & s & _ & [= <-])%bind_inv_ok. }
  assert (__installed st2 = true) as Hf2.
  { pose proof (inv_hooks flags_stay_frame env repo_config all_events_allowed
                  flags_stay_hooks st1) as [_ H].
    rewrite Hh in H. by apply H. }
  pose proof (hooks_stores env repo_config st1 od st2 Hh) as Hs2.
  assert (s1 = (run_resolved env (Repository.get_cmd_runner repo_config r) od
                  id1 files1 st2).2) as Hs1.
  { unfold s1, Repository.run_hook.
    by rewrite (bind_ok _ _ _ _ _ Hi), (bind_ok _ _ _ _ _ Hh). }
  destruct (run_resolved_effect (Repository.get_cmd_runner repo_config r) od
              id1 files1 st2) as (Hf & Hs & _).
  rewrite <- Hs1 in Hf, Hs.
  unfold s2.
  rewrite (run_hook_installed r id2 files2 s1 od); [|congruence..].
  by destruct (run_resolved_effect (Repository.get_cmd_runner repo_config r)
                 od id2 files2 s1) as (_ & _ & H1 & H2).
Qed.
End install_more.

Lemma require_created_postcondition_witness :
  let cfg := Scenario.config [Scenario.override_x] in
  let st' := (Repository.require_created Scenario.env cfg
                (init Scenario.empty_world)).2 in
  __created st' = true ∧ checkout_dir Scenario.env cfg ∈ fs (world st').
Proof.
  intros cfg st'.
  apply (require_created_postcondition Scenario.env cfg
           (init Scenario.empty_world) st'
           scenario_clone_creates_target scenario_checkout_keeps_cwd);
    vm_compute; reflexivity.
Defined.

Lemma install_only_languages_of_hooks_witness :
  let cfg := Scenario.config [Scenario.override_x] in
  let st := init Scenario.empty_world in
  installs_of "ruby"
    (Repository.install Scenario.env cfg Scenario.runner st).2
    = installs_of "ruby" st.
Proof.
  intros cfg st.
  apply (install_only_languages_of_hooks Scenario.env cfg Scenario.runner st
           (Repository.require_created Scenario.env cfg st).2 {[ "python" ]}
           (Repository.languages_of Scenario.env cfg
              (Repository.require_created Scenario.env cfg st).2).2 "ruby");
    try (vm_compute; reflexivity).
  by vm_compute.
Defined.

Lemma install_unregistered_language_witness :
  let cfg := Scenario.config [Scenario.override_x; Scenario.override_gem] in
  let st := init Scenario.empty_world in
  let st1 := (Repository.require_created Cases.env_no_ruby cfg st).2 in
  let st2 := (Repository.languages_of Cases.env_no_ruby cfg st1).2 in
  Repository.install Cases.env_no_ruby cfg Scenario.runner st
    = (Raise (KeyError "ruby"), st2) ∧
  Repository.require_installed Cases.env_no_ruby cfg Scenario.runner st
    = (Raise (KeyError "ruby"), st2) ∧
  __installed st2 = false.
Proof.
  intros cfg st st1 st2.
  apply (install_unregistered_language Cases.env_no_ruby cfg Scenario.runner
           st st1 {[ "python"; "ruby" ]} st2 [] "ruby" ["python"] st2);
    vm_compute; reflexivity.
Defined.

Lemma run_hook_without_declared_hooks_witness :
  let cfg := Scenario.config [] in
  let st := init Scenario.empty_world in
  let st1 := (Repository.require_created Scenario.env cfg st).2 in
  Repository.run_hook Scenario.env cfg Scenario.runner "lint" ["a.txt"] st =
    (Raise (KeyError "lint"),
     set_installed true (set_languages_slot ∅ (set_hooks_slot [] st1))).
Proof.
  intros cfg st st1.
  apply (run_hook_without_declared_hooks Scenario.env cfg Scenario.runner
           "lint" ["a.txt"] st st1);
    vm_compute; reflexivity.
Defined.

Lemma later_run_hook_only_runs_witness :
  let cfg := Scenario.config [Scenario.override_x] in
  let st := init Scenario.empty_world in
  let s1 := (Repository.run_hook Scenario.env cfg Scenario.runner "x"
               ["a.py"] st).2 in
  let s2 := (Repository.run_hook Scenario.env cfg Scenario.runner "x"
               ["b.py"] s1).2 in
  count_ev is_not_run (trace (world s2))
    = count_ev is_not_run (trace (world s1)) ∧
  (runs s2 ≤ S (runs s1))%nat.
Proof.
  intros cfg st.
  apply (later_run_hook_only_runs Scenario.env cfg Scenario.runner
           "x" ["a.py"] "x" ["b.py"] st
           (Repository.require_installed Scenario.env cfg Scenario.runner st).2
           [("x", dict_update Scenario.override_x Scenario.entry_x)]
           (Repository.require_installed Scenario.env cfg Scenario.runner
              st).2);
    vm_compute; reflexivity.
Defined.

(** The second run of the example adds one run and nothing else. *)
Example second_run_trace :
  let cfg := Scenario.config [Scenario.override_x] in
  let s1 := (Repository.run_hook Scenario.env cfg Scenario.runner "x"
               ["a.py"] (init Scenario.empty_world)).2 in
  let s2 := (Repository.run_hook Scenario.env cfg Scenario.runner "x"
               ["b.py"] s1).2 in
  runs s1 = 1%nat ∧ runs s2 = 2%nat ∧ clones s2 = 1%nat ∧
  installs_of "python" s2 = 1%nat.
Proof. vm_compute. repeat split. Qed.

(** ** The nesting of [create] *)

Lemma bind_ext {A B} (m : M A) (k1 k2 : A → M B) st :
  (∀ a st', m st = (Ok a, st') → k1 a st' = k2 a st') →
  bind m k1 st = bind m k2 st.
Proof.
  intros H. unfold bind. destruct (m st) as [[a|e] st'] eqn:E; [|done].
  by apply H.
Qed.

Section nesting.
Context (env : Env) (repo_config : Config).
#[local] Abbreviation dir := (checkout_dir env repo_config).
#[local] Abbreviation sha := (Repository.sha repo_config).
#[local] Abbreviation create_at := (Repository.create_at env repo_config).

(** [create] looks at the [create] it nests only in a state in which the
    checkout directory exists. *)
Lemma create_at_succ_ext d1 d2 st :
  clone_creates_target env →
  (∀ s, dir ∈ fs (world s) → create_at d1 s = create_at d2 s) →
  create_at (S d1) st = create_at (S d2) st.
Proof.
  intros Hclone Hext. simpl. unfold in_hooks_workspace, finally.
  match goal with
  | |- (let '(_, _) := ?b1 ?s in _) = (let '(_, _) := ?b2 ?s in _) =>
      assert (b1 s = b2 s) as ->; [|done]
  end.
  apply bind_ext. intros p s1 [= <- <-].
  apply bind_ext. intros present s2 [= <- <-].
  case_bool_decide as Hin; [done|].
  apply bind_ext. intros [] s3 [= <-].
  apply bind_ext. intros [] s4 [= <-].
  apply bind_ext. intros [] s5 [= <-].
  apply bind_ext. intros target s6 [= <- <-].
  unfold clean_path_on_failure, on_failure.
  match goal with
  | |- match ?b1 ?s with _ => _ end = match ?b2 ?s with _ => _ end =>
      assert (b1 s = b2 s) as ->; [|done]
  end.
  apply bind_ext. intros [] s7. unfold call.
  destruct (git_clone env _ sha _) as [r f] eqn:E. intros [= -> <-].
  apply Hclone in E. simpl in E.
  match goal with
  | |- Repository.in_checkout_with _ _ _ _ ?s = _ =>
      assert (Repository.require_created_with (create_at d1) s
              = Repository.require_created_with (create_at d2) s) as Hrc
  end.
  { unfold Repository.require_created_with. simpl.
    match goal with |- context [if ?b then _ else _] => destruct b end;
      [done|].
    unfold bind. by rewrite Hext. }
  unfold Repository.in_checkout_with, bind. by rewrite Hrc.
Qed.

(** X14: with a [git clone] that creates its target, [create] never
    nests more than two deep: it gives the same outcome for every
    recursion limit from two on, so that the limit is not reached. *)
Theorem create_nests_at_most_twice st :
  clone_creates_target env →
  (2 ≤ recursion_limit env)%nat →
  Repository.create env repo_config st = create_at 2 st.
Proof.
  intros Hclone Hlim. unfold Repository.create.
  destruct (recursion_limit env) as [|[|d]]; [lia..|].
  apply create_at_succ_ext; [done|]. intros s Hin.
  by rewrite !(create_at_present env repo_config _ s Hin).
Qed.
End nesting.

Lemma create_nests_at_most_twice_witness :
  let cfg := Scenario.config [Scenario.override_x] in
  Repository.create Scenario.env cfg (init Scenario.empty_world)
    = Repository.create_at Scenario.env cfg 2 (init Scenario.empty_world).
Proof.
  apply (create_nests_at_most_twice Scenario.env
           (Scenario.config [Scenario.override_x])
           (init Scenario.empty_world) scenario_clone_creates_target).
  vm_compute. lia.
Defined.

(** ** Manifest entries that share an id *)

Lemma dict_of_hooks_other hs acc m i :
  dict_of_hooks hs acc = Ok m →
  Forall (λ h, ¬ has_id i h) hs →
  m !! i = acc !! i.
Proof.
  revert acc. induction hs as [|hook rest IH]; intros acc; simpl.
  - by intros [= ->].
  - unfold getitem.
    destruct (hook !! "id") as [[k|l]|] eqn:Hk; simpl; [|done..].
    intros H [Hn Hrest]%Forall_cons. rewrite (IH _ H Hrest).
    apply lookup_insert_ne. intros ->. by apply Hn.
Qed.

Lemma dict_of_hooks_last pre entry post acc m i :
  dict_of_hooks (pre ++ entry :: post) acc = Ok m →
  has_id i entry →
  Forall (λ h, ¬ has_id i h) post →
  m !! i = Some entry.
Proof.
  revert acc. induction pre as [|h0 pre IH]; intros acc H Hi Hpost.
  - simpl in H. rewrite (has_id_getitem _ _ Hi) in H. simpl in H.
    rewrite (dict_of_hooks_other _ _ _ _ H Hpost). apply lookup_insert_eq.
  - simpl in H. destruct (getitem h0 "id") as [[k|l]|]; [simpl in H|done..].
    by eapply IH.
Qed.

Lemma dict_of_hooks_total hs acc :
  all_have_id hs = true → ∃ m, dict_of_hooks hs acc = Ok m.
Proof.
  revert acc. induction hs as [|hook rest IH]; intros acc; simpl;
    [by eexists|].
  intros [[i Hi]%bool_decide_eq_true Hrest]%andb_true_iff.
  apply id_of_has_id in Hi. rewrite (has_id_getitem _ _ Hi). simpl.
  by apply IH.
Qed.

Section manifest_duplicates.
Context (env : Env) (repo_config : Config).

(** X15: when [load_manifest] yields entries that all carry an id,
    several of them with the same id, the first access to [manifest]
    raises nothing: it returns and caches a mapping that keeps, under
    that id, the last of those entries. *)
Theorem manifest_duplicate_id_last_wins st st1 entries f :
  manifest_slot st = None →
  Repository.require_created env repo_config st = (Ok tt, st1) →
  checkout_dir env repo_config ∈ fs (world st1) →
  load_manifest env (MANIFEST_FILE env)
    (world_at_load env repo_config (world st1)) = (Ok entries, f) →
  all_have_id entries = true →
  ∃ m st',
    Repository.manifest env repo_config st = (Ok m, st') ∧
    manifest_slot st' = Some m ∧
    ∀ pre entry post i,
      entries = pre ++ entry :: post →
      has_id i entry →
      none_has_id i post = true →
      m !! i = Some entry.
Proof.
  intros Hs Hrc Hin Hload Hids.
  destruct (dict_of_hooks_total entries ∅ Hids) as [m Hdict].
  assert (∃ st', Repository.manifest env repo_config st = (Ok m, st'))
    as [st' Hm].
  { unfold Repository.manifest, cached_property. rewrite Hs.
    unfold Repository.in_checkout, Repository.in_checkout_with.
    unfold Repository.require_created in Hrc.
    rewrite (bind_ok _ _ _ _ _ Hrc).
    unfold in_hooks_workspace, finally, local_cwd. simpl.
    rewrite bool_decide_eq_true_2 by done.
    unfold finally, bind, call. simpl.
    match goal with |- context [load_manifest env ?file ?w] =>
      change w with (world_at_load env repo_config (world st1)) end.
    rewrite Hload. unfold lift. rewrite Hdict. by eexists. }
  exists m, st'. split_and!; [done|by eapply manifest_stores|].
  intros pre entry post i -> Hi Hpost.
  eapply dict_of_hooks_last; [done..|]. by apply none_has_id_Forall.
Qed.
End manifest_duplicates.

Lemma manifest_duplicate_id_last_wins_witness :
  let cfg := Scenario.config [Scenario.override_x] in
  let st := init Scenario.empty_world in
  ∃ m st',
    Repository.manifest Cases.env_duplicates cfg st = (Ok m, st') ∧
    manifest_slot st' = Some m ∧
    ∀ pre entry post i,
      [Scenario.entry_x; Cases.entry_x_again] = pre ++ entry :: post →
      has_id i entry →
      none_has_id i post = true →
      m !! i = Some entry.
Proof.
  intros cfg st.
  apply (manifest_duplicate_id_last_wins Cases.env_duplicates cfg st
           (Repository.require_created Cases.env_duplicates cfg st).2
           [Scenario.entry_x; Cases.entry_x_again]
           (fs (world (Repository.require_created Cases.env_duplicates cfg
                         st).2)));
    vm_compute; reflexivity.
Defined.

(** The two entries of the example: the mapping keeps the second. *)
Example manifest_keeps_second_entry :
  (Repository.manifest Cases.env_duplicates
     (Scenario.config [Scenario.override_x]) (init Scenario.empty_world)).1
  = Ok {[ "x" := Cases.entry_x_again ]}.
Proof. vm_compute. reflexivity. Qed.
